(** * libflatpak_query: AppStream catalogue index and keyword search

    A shallow embedding of [libflatpak_query.py]: the [AppStreamPackage]
    record class, the [AppstreamSearcher] index with its loader, and the
    keyword search.  Python objects that are mutated after construction
    ([AppStreamPackage.match]) live in an explicit heap and are referred to
    by address, so that the lists stored in the index and the lists returned
    by a search alias the same objects.  Exceptions are values of [PyError];
    a raising call keeps every mutation it made before raising. *)

From Stdlib Require Import Ascii String.
From stdpp Require Import base list strings.

Local Open Scope string_scope.
Local Open Scope list_scope.

(** ** Strings: [str.lower] and the [in] operator *)

Module Str.

(** A [str] is held as the bytes of its UTF-8 encoding.  [lower] is
    [str.lower()] for the letters [A-Z]; every other byte is kept, so the
    two agree on a string whose cased characters are all ASCII letters. *)
Definition lower_ascii (c : ascii) : ascii :=
  let n := nat_of_ascii c in
  if (65 <=? n)%nat && (n <=? 90)%nat then ascii_of_nat (n + 32) else c.

Definition upper_ascii (c : ascii) : ascii :=
  let n := nat_of_ascii c in
  if (97 <=? n)%nat && (n <=? 122)%nat then ascii_of_nat (n - 32) else c.

Fixpoint lower (s : string) : string :=
  match s with
  | EmptyString => EmptyString
  | String c s' => String (lower_ascii c) (lower s')
  end.

Fixpoint upper (s : string) : string :=
  match s with
  | EmptyString => EmptyString
  | String c s' => String (upper_ascii c) (upper s')
  end.

(** [starts_with kw s]: [s.startswith(kw)]. *)
Fixpoint starts_with (kw s : string) : bool :=
  match kw, s with
  | EmptyString, _ => true
  | String _ _, EmptyString => false
  | String a kw', String b s' => Ascii.eqb a b && starts_with kw' s'
  end.

(** [contains kw s]: the Python expression [kw in s] on two [str]. *)
Fixpoint contains (kw s : string) : bool :=
  starts_with kw s ||
  match s with
  | EmptyString => false
  | String _ s' => contains kw s'
  end.

(** Declarative reading of "substring": some text before, some text after. *)
Definition Substring (kw s : string) : Prop :=
  exists pre post : string, s = (pre ++ kw ++ post)%string.

(** Two characters that differ at most in the case of an ASCII letter. *)
Definition same_letter (a b : ascii) : Prop :=
  a = b \/ b = upper_ascii a \/ b = lower_ascii a.

(** [case_variant k1 k2]: [k2] is [k1] with the case of some letters changed. *)
Inductive case_variant : string -> string -> Prop :=
| cv_nil : case_variant EmptyString EmptyString
| cv_cons a b s t :
    same_letter a b -> case_variant s t -> case_variant (String a s) (String b t).

(** [x in xs] for a list of [str]. *)
Definition str_in (x : string) (xs : list string) : bool :=
  existsb (String.eqb x) xs.

End Str.

(** ** The data read from AppStream and Flatpak *)

Inductive ComponentKind :=
| GENERIC | DESKTOP_APP | CONSOLE_APP | WEB_APP | ADDON | FONT | CODEC
| RUNTIME | OTHER_KIND.

Inductive IconKind := ICON_STOCK | ICON_CACHED | ICON_LOCAL | ICON_REMOTE.

Inductive UrlKind := DONATION | HOMEPAGE | BUGTRACKER.

Record Icon := {
  icon_kind : IconKind;
  icon_get_url : string;
  icon_get_filename : string
}.

(** [AppStream.Release]; [get_version()] is [None] when no version is set. *)
Record Release := { get_version : option string }.

(** [AppStream.Bundle] of kind FLATPAK. *)
Record Bundle := { bundle_get_id : string }.

(** [AppStream.Component]: one field per getter the program calls.
    [get_bundle] is [None] when the component has no flatpak bundle. *)
Record Component := {
  get_kind : ComponentKind;
  get_id : string;
  get_name : string;
  get_summary : string;
  get_description : string;
  get_releases_plain : list Release;
  get_icons : list Icon;
  get_url : UrlKind -> option string;
  get_developer_name : string;
  get_categories : list string;
  get_bundle : option Bundle
}.

(** What [Path(...).exists()] and [metadata.parse_file] find on disk. *)
Inductive AppstreamFile :=
| Missing
| Corrupt
| Catalog (components : list Component).

(** [Flatpak.Remote], with the state of its metadata cache directory. *)
Record Remote := {
  remote_get_name : string;
  get_disabled : bool;
  get_appstream_dir : string;
  appstream_xml_gz : AppstreamFile
}.

(** [Flatpak.Installation]: [installed_app_refs] holds [ref.format_ref()]
    for every ref of [list_installed_refs_by_kind(Flatpak.RefKind.APP)]. *)
Record Installation := {
  list_remotes : list Remote;
  installed_app_refs : list string
}.

(** [pathlib.Path(arg)], kept symbolic: the program only stores or prints it. *)
Inductive PosixPath := Path (arg : string).

(** ** class Match(IntEnum) *)

Inductive Match := NAME | ID | SUMMARY | NONE.

Definition Match_value (m : Match) : nat :=
  match m with NAME => 1 | ID => 2 | SUMMARY => 3 | NONE => 4 end.

Definition Match_eqb (a b : Match) : bool :=
  Nat.eqb (Match_value a) (Match_value b).

Definition Match_name (m : Match) : string :=
  match m with
  | NAME => "NAME" | ID => "ID" | SUMMARY => "SUMMARY" | NONE => "NONE"
  end.

(** ** class AppStreamPackage *)

(** An object reference: the position of the object in the heap. *)
Abbreviation addr := nat.

Record Urls := { donation : string; homepage : string; bugtracker : string }.

Record AppStreamPackage := {
  component : Component;
  remote : Remote;
  repo_name : string;
  flatpak_bundle : string;
  pkg_match : Match;
  icon_url : string;
  icon_path_128 : PosixPath;
  icon_path_64 : PosixPath;
  icon_filename : string;
  description : string;
  urls : Urls;
  developer : string;
  categories : list string
}.

Definition set_match (found : Match) (p : AppStreamPackage) : AppStreamPackage :=
  {| component := component p; remote := remote p; repo_name := repo_name p;
     flatpak_bundle := flatpak_bundle p; pkg_match := found;
     icon_url := icon_url p; icon_path_128 := icon_path_128 p;
     icon_path_64 := icon_path_64 p; icon_filename := icon_filename p;
     description := description p; urls := urls p; developer := developer p;
     categories := categories p |}.

(** ** Exceptions, log records and the program state *)

Inductive PyError :=
| KeyError (key : string)              (* self.remotes[repo_name] *)
| GLibError (file : PosixPath)         (* metadata.parse_file *)
| AttributeError                       (* a method called on None *)
| InvalidAddress (a : addr).           (* model only: a dangling reference *)

Inductive Outcome (A : Type) :=
| Ok (value : A)
| Raise (e : PyError).
Arguments Ok {A} value.
Arguments Raise {A} e.

(** Calls of [logger.debug]; both call sites log at DEBUG level. *)
Inductive LogRecord :=
| debug_file_not_found (appstream_file : PosixPath)
| debug_found (package : addr) (found : Match).

(** The fields of [AppstreamSearcher] ([remotes], a [dict] in insertion
    order, and [installed]), the objects it refers to and the log. *)
Record State := {
  remotes : list (string * list addr);
  installed : list string;
  heap : list AppStreamPackage;
  log : list LogRecord
}.

(** [AppstreamSearcher()] in a fresh process. *)
Definition init : State :=
  {| remotes := []; installed := []; heap := []; log := [] |}.

(** Computations that read and update the state and may raise. *)
Definition M (A : Type) : Type := State -> Outcome A * State.

Definition ret {A} (a : A) : M A := fun s => (Ok a, s).
Definition raise {A} (e : PyError) : M A := fun s => (Raise e, s).
Definition bind {A B} (m : M A) (k : A -> M B) : M B :=
  fun s => match m s with
           | (Ok a, s') => k a s'
           | (Raise e, s') => (Raise e, s')
           end.
Definition gets {A} (f : State -> A) : M A := fun s => (Ok (f s), s).
Definition modify (f : State -> State) : M unit := fun s => (Ok tt, f s).
Definition lift {A} (o : Outcome A) : M A := fun s => (o, s).

Notation "'let!' x ':=' m 'in' k" := (bind m (fun x => k))
  (at level 10, x name, m at level 100, k at level 200).
Notation "'do!' m 'in' k" := (bind m (fun _ => k))
  (at level 10, m at level 100, k at level 200).

Definition logger_debug (r : LogRecord) : M unit :=
  modify (fun s => {| remotes := remotes s; installed := installed s;
                      heap := heap s; log := log s ++ [r] |}).

(** Object creation: the new object gets the next free address. *)
Definition alloc (p : AppStreamPackage) : M addr :=
  fun s => (Ok (length (heap s)),
            {| remotes := remotes s; installed := installed s;
               heap := heap s ++ [p]; log := log s |}).

Definition deref (a : addr) : M AppStreamPackage :=
  fun s => match heap s !! a with
           | Some p => (Ok p, s)
           | None => (Raise (InvalidAddress a), s)
           end.

(** [package.match = found] *)
Definition store_match (a : addr) (found : Match) : M unit :=
  modify (fun s => {| remotes := remotes s; installed := installed s;
                      heap := alter (set_match found) a (heap s);
                      log := log s |}).

(** *** The [dict] [self.remotes] *)

Fixpoint dict_get {V} (d : list (string * V)) (k : string) : option V :=
  match d with
  | [] => None
  | (k', v) :: d' => if String.eqb k k' then Some v else dict_get d' k
  end.

Definition dict_mem {V} (k : string) (d : list (string * V)) : bool :=
  match dict_get d k with Some _ => true | None => false end.

(** [d[k] = v]: replaces the value of an existing key in place, appends a
    new key at the end. *)
Fixpoint dict_set {V} (d : list (string * V)) (k : string) (v : V)
  : list (string * V) :=
  match d with
  | [] => [(k, v)]
  | (k', v') :: d' =>
      if String.eqb k k' then (k', v) :: d' else (k', v') :: dict_set d' k v
  end.

Definition dict_keys {V} (d : list (string * V)) : list string := map fst d.

(** *** Properties and helpers of AppStreamPackage *)

Definition id (p : AppStreamPackage) : string := get_id (component p).
Definition name (p : AppStreamPackage) : string := get_name (component p).
Definition summary (p : AppStreamPackage) : string := get_summary (component p).

(** [releases.index_safe(i)] and [components.index_safe(i)]. *)
Definition index_safe {A} (box : list A) (i : nat) : option A := box !! i.

(** Truth value of the [AppStream.ReleaseList] wrapper object returned by
    [get_releases_plain()]: a GObject without [__len__] or [__bool__]. *)
Definition box_truthy {A} (box : list A) : bool := true.

Definition version (p : AppStreamPackage) : option string :=
  let releases := get_releases_plain (component p) in
  if box_truthy releases then
    match index_safe releases 0 with
    | Some release => get_version release
    | None => None
    end
  else None.

Definition icon_kind_eqb (a b : IconKind) : bool :=
  match a, b with
  | ICON_STOCK, ICON_STOCK | ICON_CACHED, ICON_CACHED
  | ICON_LOCAL, ICON_LOCAL | ICON_REMOTE, ICON_REMOTE => true
  | _, _ => false
  end.

Definition _get_icon_url (comp : Component) : string :=
  match find (fun icon => icon_kind_eqb (icon_kind icon) ICON_REMOTE)
             (get_icons comp) with
  | Some remote_icon => icon_get_url remote_icon
  | None => ""
  end.

Definition _get_icon_filename (comp : Component) : string :=
  match find (fun icon => icon_kind_eqb (icon_kind icon) ICON_CACHED)
             (get_icons comp) with
  | Some cached_icon => icon_get_filename cached_icon
  | None => ""
  end.

Definition _get_icon_cache_path (r : Remote) (size : string) : PosixPath :=
  Path (get_appstream_dir r ++ "/icons/flatpak/" ++ size ++ "/")%string.

Definition _get_url (comp : Component) (url_kind : UrlKind) : string :=
  match get_url comp url_kind with
  | Some (String c u) => String c u
  | _ => ""
  end.

Definition _get_urls (comp : Component) : Urls :=
  {| donation := _get_url comp DONATION;
     homepage := _get_url comp HOMEPAGE;
     bugtracker := _get_url comp BUGTRACKER |}.

Definition _get_categories (comp : Component) : list string :=
  map Str.lower (get_categories comp).

(** [AppStreamPackage.__init__]: raises when the component has no flatpak
    bundle ([bundle.get_id()] on [None]). *)
Definition AppStreamPackage_init (comp : Component) (r : Remote)
  : Outcome AppStreamPackage :=
  match get_bundle comp with
  | None => Raise AttributeError
  | Some bundle =>
      Ok {| component := comp; remote := r;
            repo_name := remote_get_name r;
            flatpak_bundle := bundle_get_id bundle;
            pkg_match := NONE;
            icon_url := _get_icon_url comp;
            icon_path_128 := _get_icon_cache_path r "128x128";
            icon_path_64 := _get_icon_cache_path r "64x64";
            icon_filename := _get_icon_filename comp;
            description := get_description comp;
            urls := _get_urls comp;
            developer := get_developer_name comp;
            categories := _get_categories comp |}
  end.

(** [AppStreamPackage.search] *)
Definition search (p : AppStreamPackage) (keyword : string) : Match :=
  if Str.contains keyword (Str.lower (name p)) then NAME
  else if Str.contains keyword (Str.lower (id p)) then ID
  else if Str.contains keyword (Str.lower (summary p)) then SUMMARY
  else NONE.

(** ** class AppstreamSearcher *)

Definition kind_is_desktop_app (k : ComponentKind) : bool :=
  match k with DESKTOP_APP => true | _ => false end.

(** The body of the loop of [_load_appstream_metadata] once [component] has
    been fetched; [packages] is the list built so far. *)
Definition load_component (r : Remote) (component : Component)
    (packages : list addr) : M (list addr) :=
  if kind_is_desktop_app (get_kind component) then
    match get_bundle component with
    | None => raise AttributeError
    | Some b =>
        let bundle := bundle_get_id b in
        let! self_installed := gets installed in
        if negb (Str.str_in bundle self_installed) then
          let! p := lift (AppStreamPackage_init component r) in
          let! a := alloc p in
          ret (packages ++ [a])
        else ret packages
    end
  else ret packages.

(** One iteration: [component = components.index_safe(i)], then the body. *)
Definition load_index (r : Remote) (components : list Component) (i : nat)
    (packages : list addr) : M (list addr) :=
  match index_safe components i with
  | None => raise AttributeError
  | Some component => load_component r component packages
  end.

(** [for i in range(...)]: the indices are visited in order. *)
Fixpoint load_range (r : Remote) (components : list Component)
    (range : list nat) (packages : list addr) : M (list addr) :=
  match range with
  | [] => ret packages
  | i :: range' =>
      let! packages' := load_index r components i packages in
      load_range r components range' packages'
  end.

Definition appstream_file_path (r : Remote) : PosixPath :=
  Path (get_appstream_dir r ++ "/appstream.xml.gz")%string.

Definition _load_appstream_metadata (r : Remote) : M (list addr) :=
  let appstream_file := appstream_file_path r in
  match appstream_xml_gz r with
  | Catalog components =>
      load_range r components (seq 0 (length components)) []
  | Corrupt => raise (GLibError appstream_file)
  | Missing =>
      do! logger_debug (debug_file_not_found appstream_file) in
      ret []
  end.

Definition installed_extend (refs : list string) : M unit :=
  modify (fun s => {| remotes := remotes s; installed := installed s ++ refs;
                      heap := heap s; log := log s |}).

Definition remotes_setitem (k : string) (v : list addr) : M unit :=
  modify (fun s => {| remotes := dict_set (remotes s) k v;
                      installed := installed s; heap := heap s;
                      log := log s |}).

Definition add_remote (r : Remote) (inst : Installation) : M unit :=
  let remote_name := remote_get_name r in
  do! installed_extend (installed_app_refs inst) in
  let! self_remotes := gets remotes in
  if negb (dict_mem remote_name self_remotes) then
    let! packages := _load_appstream_metadata r in
    remotes_setitem remote_name packages
  else ret tt.

Fixpoint add_installation_loop (rs : list Remote) (inst : Installation)
  : M unit :=
  match rs with
  | [] => ret tt
  | r :: rs' =>
      do! (if negb (get_disabled r) then add_remote r inst else ret tt) in
      add_installation_loop rs' inst
  end.

Definition add_installation (inst : Installation) : M unit :=
  add_installation_loop (list_remotes inst) inst.

(** The loop of [search_flatpak_repo] over [packages]. *)
Fixpoint search_loop (keyword : string) (packages : list addr)
    (search_results : list addr) : M (list addr) :=
  match packages with
  | [] => ret search_results
  | package :: packages' =>
      let! p := deref package in
      let found := search p keyword in
      if negb (Match_eqb found NONE) then
        do! logger_debug (debug_found package found) in
        do! store_match package found in
        search_loop keyword packages' (search_results ++ [package])
      else search_loop keyword packages' search_results
  end.

Definition search_flatpak_repo (keyword : string) (repo : string)
  : M (list addr) :=
  let! self_remotes := gets remotes in
  match dict_get self_remotes repo with
  | None => raise (KeyError repo)
  | Some packages => search_loop keyword packages []
  end.

(** Truth value of the argument [repo_name]: [None] and [""] are false. *)
Definition truthy (repo : option string) : bool :=
  match repo with
  | Some (String _ _) => true
  | _ => false
  end.

(** The loop of [search_flatpak] over [self.remotes.keys()]. *)
Fixpoint search_all (keyword : string) (keys : list string)
    (search_results : list addr) : M (list addr) :=
  match keys with
  | [] => ret search_results
  | remote_name :: keys' =>
      let! results := search_flatpak_repo keyword remote_name in
      search_all keyword keys' (search_results ++ results)
  end.

Definition search_flatpak (keyword : string) (repo : option string)
  : M (list addr) :=
  let keyword := Str.lower keyword in
  if truthy repo then search_flatpak_repo keyword (default "" repo)
  else
    let! self_remotes := gets remotes in
    search_all keyword (dict_keys self_remotes) [].

(** Unfolds the monad and the primitive state operations. *)
Ltac munfold :=
  unfold bind, ret, raise, gets, modify, lift, alloc, deref, logger_debug,
    store_match, installed_extend, remotes_setitem in *.

(** ** Specification vocabulary *)

(** The straight-line reading of the loader loop: one pass over the
    components in catalogue order. *)
Fixpoint load_components (r : Remote) (components : list Component)
    (packages : list addr) : M (list addr) :=
  match components with
  | [] => ret packages
  | component :: components' =>
      let! packages' := load_component r component packages in
      load_components r components' packages'
  end.

(** [found_at h kw a]: what [search] answers for the object at [a]. *)
Definition found_at (h : list AppStreamPackage) (kw : string) (a : addr)
  : Match :=
  match h !! a with
  | Some p => search p kw
  | None => NONE
  end.

Definition hit (h : list AppStreamPackage) (kw : string) (a : addr) : bool :=
  negb (Match_eqb (found_at h kw a) NONE).

(** The addresses of [l] whose object matches [kw], in the order of [l]. *)
Definition hits (h : list AppStreamPackage) (kw : string) (l : list addr)
  : list addr :=
  List.filter (hit h kw) l.

(** The object at [a] after a scan of the list [l] with [kw]. *)
Definition after_search (kw : string) (l : list addr) (a : addr)
    (p : AppStreamPackage) : AppStreamPackage :=
  if bool_decide (a ∈ l) && negb (Match_eqb (search p kw) NONE)
  then set_match (search p kw) p
  else p.

(** Every address stored in the index. *)
Definition all_packages (s : State) : list addr :=
  concat (map snd (remotes s)).

(** The lists a call [search_flatpak(keyword, repo)] scans. *)
Definition scanned (s : State) (repo : option string) : list addr :=
  if truthy repo then default [] (dict_get (remotes s) (default "" repo))
  else all_packages s.

(** The state invariant of the searcher: keys are unique, no object is
    stored twice, every stored address is live and its object carries the
    name of the repository it is stored under. *)
Definition stored_ok (s : State) (n : string) (a : addr) : Prop :=
  exists p, heap s !! a = Some p /\ repo_name p = n.

Definition wf (s : State) : Prop :=
  NoDup (dict_keys (remotes s)) /\
  NoDup (all_packages s) /\
  Forall (fun e => Forall (stored_ok s (fst e)) (snd e)) (remotes s).

(** The calls a client can make on a searcher. *)
Inductive Call :=
| call_add_installation (inst : Installation)
| call_add_remote (r : Remote) (inst : Installation)
| call_search_flatpak (keyword : string) (repo : option string)
| call_search_flatpak_repo (keyword : string) (repo : string).

(** The state a call leaves behind, whether it returns or raises. *)
Definition run_call (c : Call) (s : State) : State :=
  match c with
  | call_add_installation inst => snd (add_installation inst s)
  | call_add_remote r inst => snd (add_remote r inst s)
  | call_search_flatpak kw repo => snd (search_flatpak kw repo s)
  | call_search_flatpak_repo kw repo => snd (search_flatpak_repo kw repo s)
  end.

(** The states of a session: any number of calls on a fresh searcher. *)
Inductive reachable : State -> Prop :=
| reachable_init : reachable init
| reachable_call c s : reachable s -> reachable (run_call c s).

(** A sequence of public searches, each one a call of its own. *)
Definition run_searches (qs : list (string * option string)) (s : State)
  : State :=
  foldl (fun s q => snd (search_flatpak (fst q) (snd q) s)) s qs.

(** The classification the most recent matching search of [qs] gave to the
    object [p] stored at [a]; [m0] when none matched. *)
Definition last_match (s : State) (a : addr) (p : AppStreamPackage)
    (m0 : Match) (qs : list (string * option string)) : Match :=
  foldl (fun m q =>
           let found := search p (Str.lower (fst q)) in
           if bool_decide (a ∈ scanned s (snd q))
              && negb (Match_eqb found NONE)
           then found else m) m0 qs.

(** A catalogue the loader reads to the end: every desktop application
    has a flatpak bundle. *)
Definition well_formed_component (c : Component) : Prop :=
  kind_is_desktop_app (get_kind c) = true -> is_Some (get_bundle c).

(** The components of a catalogue that become packages. *)
Definition eligible (inst : list string) (c : Component) : bool :=
  kind_is_desktop_app (get_kind c) &&
  match get_bundle c with
  | Some b => negb (Str.str_in (bundle_get_id b) inst)
  | None => false
  end.

(** The state after [self.installed.extend(...)]. *)
Definition extended (inst : Installation) (s : State) : State :=
  {| remotes := remotes s;
     installed := installed s ++ installed_app_refs inst;
     heap := heap s; log := log s |}.

(** What one run of the loader may change: it only adds objects, all of
    them of the repository being loaded, unmatched, and with a bundle that
    is not in [self.installed]. *)
Definition fresh_for (r : Remote) (inst : list string) (p : AppStreamPackage)
  : Prop :=
  repo_name p = remote_get_name r /\
  (flatpak_bundle p ∉ inst) /\
  pkg_match p = NONE.

Record loads (r : Remote) (s s' : State) (new : list AppStreamPackage)
  : Prop := {
  loads_remotes : remotes s' = remotes s;
  loads_installed : installed s' = installed s;
  loads_log : log s' = log s;
  loads_heap : heap s' = heap s ++ new;
  loads_fresh : Forall (fresh_for r (installed s)) new
}.

(** Every address of [l] refers to an object. *)
Definition live (h : list AppStreamPackage) (l : list addr) : Prop :=
  Forall (fun a => is_Some (h !! a)) l.

(** The state after the loop of [search_flatpak_repo] has scanned [l]. *)
Definition searched (kw : string) (l : list addr) (s : State) : State :=
  {| remotes := remotes s; installed := installed s;
     heap := imap (after_search kw l) (heap s);
     log := log s
            ++ map (fun a => debug_found a (found_at (heap s) kw a))
                   (hits (heap s) kw l) |}.

(** A session continued with the calls [calls], in order. *)
Definition run_session (calls : list Call) (s : State) : State :=
  foldl (fun st c => run_call c st) s calls.

(** [keeps s s']: [s'] still has every entry of the index of [s] and every
    object of [s], with the bundle it was constructed with. *)
Definition keeps (s s' : State) : Prop :=
  (forall n l, dict_get (remotes s) n = Some l ->
               dict_get (remotes s') n = Some l) /\
  (forall a p, heap s !! a = Some p ->
               exists p', heap s' !! a = Some p'
                          /\ flatpak_bundle p' = flatpak_bundle p).

(** The state after the debug record for a missing catalogue file. *)
Definition logged_missing (r : Remote) (s : State) : State :=
  {| remotes := remotes s; installed := installed s; heap := heap s;
     log := log s ++ [debug_file_not_found (appstream_file_path r)] |}.

(** The state after [self.remotes[name] = packages] for a new name. *)
Definition registered (n : string) (packages : list addr) (s : State)
  : State :=
  {| remotes := remotes s ++ [(n, packages)]; installed := installed s;
     heap := heap s; log := log s |}.

(** The state after the loader has created the objects [new]. *)
Definition allocated (new : list AppStreamPackage) (s : State) : State :=
  {| remotes := remotes s; installed := installed s;
     heap := heap s ++ new; log := log s |}.

(** The components of the objects at the addresses [l]. *)
Definition components_at (s : State) (l : list addr) : list Component :=
  omap (fun a => component <$> heap s !! a) l.

(** ** Fixtures *)

Module Fixtures.

Definition no_url (k : UrlKind) : option string := None.

Definition lutris : Component :=
  {| get_kind := DESKTOP_APP; get_id := "net.lutris.Lutris";
     get_name := "Lutris Games"; get_summary := "gaming platform";
     get_description := "Play all your games"; 
     get_releases_plain := [ {| get_version := Some "0.5.17" |};
                             {| get_version := Some "0.5.16" |} ];
     get_icons := [ {| icon_kind := ICON_CACHED; icon_get_url := "";
                       icon_get_filename := "net.lutris.Lutris.png" |} ];
     get_url := no_url; get_developer_name := "Lutris Team";
     get_categories := ["Game"];
     get_bundle :=
       Some {| bundle_get_id := "app/net.lutris.Lutris/x86_64/stable" |} |}.

Definition chess : Component :=
  {| get_kind := DESKTOP_APP; get_id := "org.gnome.Chess";
     get_name := "GNOME Chess"; get_summary := "Play the classic board game";
     get_description := ""; get_releases_plain := [];
     get_icons := []; get_url := no_url; get_developer_name := "GNOME";
     get_categories := ["Game"; "BoardGame"];
     get_bundle :=
       Some {| bundle_get_id := "app/org.gnome.Chess/x86_64/stable" |} |}.

Definition firefox : Component :=
  {| get_kind := DESKTOP_APP; get_id := "org.mozilla.firefox";
     get_name := "Firefox"; get_summary := "Fast, private web browser";
     get_description := ""; 
     get_releases_plain := [ {| get_version := Some "" |} ];
     get_icons := []; get_url := no_url; get_developer_name := "Mozilla";
     get_categories := ["Network"];
     get_bundle :=
       Some {| bundle_get_id := "app/org.mozilla.firefox/x86_64/stable" |} |}.

Definition platform : Component :=
  {| get_kind := RUNTIME; get_id := "org.gnome.Platform";
     get_name := "GNOME Platform"; get_summary := "Shared libraries";
     get_description := ""; get_releases_plain := [];
     get_icons := []; get_url := no_url; get_developer_name := "GNOME";
     get_categories := []; get_bundle := None |}.

Definition flathub : Remote :=
  {| remote_get_name := "flathub"; get_disabled := false;
     get_appstream_dir := "/var/lib/flatpak/appstream/flathub/x86_64/active";
     appstream_xml_gz := Catalog [lutris; firefox; platform; chess] |}.

Definition fedora : Remote :=
  {| remote_get_name := "fedora"; get_disabled := false;
     get_appstream_dir := "/var/lib/flatpak/appstream/fedora/x86_64/active";
     appstream_xml_gz := Missing |}.

Definition broken : Remote :=
  {| remote_get_name := "broken"; get_disabled := false;
     get_appstream_dir := "/var/lib/flatpak/appstream/broken/x86_64/active";
     appstream_xml_gz := Corrupt |}.

Definition beta : Remote :=
  {| remote_get_name := "flathub-beta"; get_disabled := false;
     get_appstream_dir :=
       "/var/lib/flatpak/appstream/flathub-beta/x86_64/active";
     appstream_xml_gz := Catalog [lutris] |}.

Definition installed_refs : list string :=
  ["app/org.mozilla.firefox/x86_64/stable"].

Definition system : Installation :=
  {| list_remotes := [fedora; flathub; beta];
     installed_app_refs := installed_refs |}.

Definition system_broken : Installation :=
  {| list_remotes := [flathub; broken; beta];
     installed_app_refs := installed_refs |}.

(** The object [AppStreamPackage(lutris, flathub)]. *)
Definition lutris_package : AppStreamPackage :=
  {| component := lutris; remote := flathub; repo_name := "flathub";
     flatpak_bundle := "app/net.lutris.Lutris/x86_64/stable";
     pkg_match := NONE; icon_url := "";
     icon_path_128 :=
       Path "/var/lib/flatpak/appstream/flathub/x86_64/active/icons/flatpak/128x128/";
     icon_path_64 :=
       Path "/var/lib/flatpak/appstream/flathub/x86_64/active/icons/flatpak/64x64/";
     icon_filename := "net.lutris.Lutris.png";
     description := "Play all your games";
     urls := {| donation := ""; homepage := ""; bugtracker := "" |};
     developer := "Lutris Team"; categories := ["game"] |}.

(** [AppStreamPackage(c, r)] for a component that has a flatpak bundle. *)
Definition package (c : Component) (r : Remote) : AppStreamPackage :=
  match AppStreamPackage_init c r with
  | Ok p => p
  | Raise _ => lutris_package
  end.

Definition fedora_and_flathub : Installation :=
  {| list_remotes := [fedora; flathub];
     installed_app_refs := installed_refs |}.

(** One and two calls of [add_remote] for the same repository. *)
Definition once : State := snd (add_remote flathub system init).
Definition twice : State := snd (add_remote flathub system once).

(** The session of [main]: a fresh searcher and [add_installation]. *)
Definition session : State := run_call (call_add_installation system) init.

End Fixtures.

(** ** The presentation layer: get_details and main *)

(** The dict returned by [get_details]: fifteen literal keys, read back by
    [main] with literal keys only. *)
Module Details.
Record t := {
  name : string;
  id : string;
  summary : string;
  description : string;
  version : option string;
  icon_url : string;
  icon_path_128 : PosixPath;
  icon_path_64 : PosixPath;
  icon_filename : string;
  urls : Urls;
  developer : string;
  categories : list string;
  bundle_id : string;
  match_type : string;
  repo : string
}.
End Details.

Definition get_details (p : AppStreamPackage) : Details.t :=
  {| Details.name := name p;
     Details.id := id p;
     Details.summary := summary p;
     Details.description := description p;
     Details.version := version p;
     Details.icon_url := icon_url p;
     Details.icon_path_128 := icon_path_128 p;
     Details.icon_path_64 := icon_path_64 p;
     Details.icon_filename := icon_filename p;
     Details.urls := urls p;
     Details.developer := developer p;
     Details.categories := categories p;
     Details.bundle_id := flatpak_bundle p;
     Details.match_type := Match_name (pkg_match p);
     Details.repo := repo_name p |}.

(** The values [main] interpolates into its f-strings; how Python formats
    them is left uninterpreted. *)
Inductive PyValue :=
| VStr (s : string)
| VNone
| VList (l : list string)
| VPath (p : PosixPath).

Definition of_option (o : option string) : PyValue :=
  match o with
  | Some v => VStr v
  | None => VNone
  end.

(** One call of [print]: a literal, or a label followed by a value. *)
Inductive Line :=
| print_text (s : string)
| print_field (label : string) (value : PyValue).

Fixpoint str_mul (s : string) (n : nat) : string :=
  match n with
  | O => ""
  | S n' => (s ++ str_mul s n')%string
  end.

(** The body of the loop of [main] for one package. *)
Definition print_package (details : Details.t) : list Line :=
  let urls := Details.urls details in
  [ print_field "Name: " (VStr (Details.name details));
    print_field "ID: " (VStr (Details.id details));
    print_field "Summary: " (VStr (Details.summary details));
    print_field "Description: " (VStr (Details.description details));
    print_field "Version: " (of_option (Details.version details));
    print_field "Icon URL: " (VStr (Details.icon_url details));
    print_field "Icon PATH 128x128: " (VPath (Details.icon_path_128 details));
    print_field "Icon PATH 64x64: " (VPath (Details.icon_path_64 details));
    print_field "Icon FILE: " (VStr (Details.icon_filename details));
    print_field "Developer: " (VStr (Details.developer details));
    print_field "Categories: " (VList (Details.categories details));
    print_field "Donation URL: " (VStr (donation urls));
    print_field "Homepage URL: " (VStr (homepage urls));
    print_field "Bug Tracker URL: " (VStr (bugtracker urls));
    print_field "Bundle ID: " (VStr (Details.bundle_id details));
    print_field "Match Type: " (VStr (Details.match_type details));
    print_field "Repo: " (VStr (Details.repo details));
    print_text (str_mul "-" 50) ].

Definition usage : list Line :=
  [ print_text "Usage: python flatpak_info.py --<option> <value>";
    print_text "options: --id --repo";
    print_text
      "example (app search single repo): --id net.lutris.Lutris --repo flathub";
    print_text "example (app search all repos): --id net.lutris.Lutris" ].

(** How a run of [main] ends: it returns, it raises [NameError] (the name
    [self] in [self._clear()] is not defined in [main]), or an exception of
    the searcher is not caught. *)
Inductive MainOutcome :=
| Returned
| NameError (name : string)
| Uncaught (e : PyError).

(** A run of [main]: how it ends, the searcher it leaves, what it printed
    and the key it passed to [logger.debug], if it got that far. *)
Record MainRun := {
  outcome : MainOutcome;
  final : State;
  stdout : list Line;
  debug_key : option string
}.

(** The loop of [main] over the search results; every result is an object
    of the heap. *)
Definition print_results (s : State) (search_results : list addr)
  : list Line :=
  flat_map (fun package =>
              match heap s !! package with
              | Some p => print_package (get_details p)
              | None => []
              end) search_results.

(** A byte that continues a multi-byte UTF-8 sequence. *)
Definition is_continuation (c : ascii) : bool :=
  let n := nat_of_ascii c in (128 <=? n)%nat && (n <=? 191)%nat.

(** [len(s)]: the number of code points, that is, of the bytes that start a
    UTF-8 sequence. *)
Fixpoint py_len (s : string) : nat :=
  match s with
  | EmptyString => 0
  | String c s' => (if is_continuation c then 0 else 1) + py_len s'
  end.

(** [main], for the parsed arguments [--id] and [--repo] and the system
    installation [Flatpak.Installation.new_system(None)]. *)
Definition main (app_id repo_filter : option string) (system : Installation)
  : MainRun :=
  if negb (truthy app_id) then
    {| outcome := Returned; final := init; stdout := usage;
       debug_key := None |}
  else
    let key := default "" app_id in
    match add_installation system init with
    | (Raise e, s) =>
        {| outcome := Uncaught e; final := s; stdout := [];
           debug_key := None |}
    | (Ok _, s) =>
        if String.eqb key "" || (py_len key <? 3)%nat then
          {| outcome := NameError "self"; final := s; stdout := [];
             debug_key := None |}
        else
          match (if truthy repo_filter
                 then search_flatpak key repo_filter s
                 else search_flatpak key None s) with
          | (Raise e, s') =>
              {| outcome := Uncaught e; final := s'; stdout := [];
                 debug_key := Some key |}
          | (Ok search_results, s') =>
              {| outcome := Returned; final := s';
                 stdout := print_results s' search_results;
                 debug_key := Some key |}
          end
    end.

(** ** More specification vocabulary *)

(** An upper-case ASCII letter. *)
Definition is_upper (c : ascii) : bool :=
  let n := nat_of_ascii c in (65 <=? n)%nat && (n <=? 90)%nat.

(** A desktop application without a flatpak bundle. *)
Definition malformed_component (c : Component) : Prop :=
  kind_is_desktop_app (get_kind c) = true /\ get_bundle c = None.

(** A repository whose metadata the loader reads without raising. *)
Definition loadable (r : Remote) : Prop :=
  match appstream_xml_gz r with
  | Missing => True
  | Corrupt => False
  | Catalog cs => Forall well_formed_component cs
  end.

Definition enabled (r : Remote) : bool := negb (get_disabled r).

Definition icon_is (k : IconKind) (icon : Icon) : bool :=
  icon_kind_eqb (icon_kind icon) k.

(** Two objects that agree on every field but [match]. *)
Definition same_record (p p' : AppStreamPackage) : Prop :=
  set_match NONE p = set_match NONE p'.

(** [has_upper s]: some character of [s] is an upper-case ASCII letter. *)
Fixpoint has_upper (s : string) : bool :=
  match s with
  | EmptyString => false
  | String c s' => is_upper c || has_upper s'
  end.

(** [s.isascii()]: every byte is below 128. *)
Fixpoint is_ascii (s : string) : bool :=
  match s with
  | EmptyString => true
  | String c s' => (nat_of_ascii c <? 128)%nat && is_ascii s'
  end.

Module MoreFixtures.






(** The UTF-8 bytes of the two-character id U+65E5 U+672C. *)
Definition two_characters : string :=
  String (ascii_of_nat 230) (String (ascii_of_nat 151)
  (String (ascii_of_nat 165) (String (ascii_of_nat 230)
  (String (ascii_of_nat 156) (String (ascii_of_nat 172) EmptyString))))).

(** A desktop application that has no flatpak bundle. *)
Definition unbundled : Component :=
  {| get_kind := DESKTOP_APP; get_id := "org.example.Unbundled";
     get_name := "Unbundled"; get_summary := "No flatpak bundle";
     get_description := ""; get_releases_plain := [];
     get_icons :=
       [ {| icon_kind := ICON_STOCK; icon_get_url := "";
            icon_get_filename := "" |};
         {| icon_kind := ICON_REMOTE;
            icon_get_url := "https://example.org/a.png";
            icon_get_filename := "" |};
         {| icon_kind := ICON_CACHED; icon_get_url := "";
            icon_get_filename := "a.png" |};
         {| icon_kind := ICON_REMOTE;
            icon_get_url := "https://example.org/b.png";
            icon_get_filename := "" |} ];
     get_url := Fixtures.no_url; get_developer_name := "";
     get_categories := ["Utility"; "GTK"; "Utility"];
     get_bundle := None |}.

Definition nightly : Remote :=
  {| remote_get_name := "nightly"; get_disabled := false;
     get_appstream_dir := "/var/lib/flatpak/appstream/nightly/x86_64/active";
     appstream_xml_gz := Catalog [Fixtures.chess; unbundled; Fixtures.lutris] |}.

Definition disabled_beta : Remote :=
  {| remote_get_name := "flathub-beta"; get_disabled := true;
     get_appstream_dir :=
       "/var/lib/flatpak/appstream/flathub-beta/x86_64/active";
     appstream_xml_gz := Catalog [Fixtures.lutris] |}.

Definition system_disabled : Installation :=
  {| list_remotes := [Fixtures.fedora; disabled_beta; Fixtures.flathub];
     installed_app_refs := Fixtures.installed_refs |}.

End MoreFixtures.

(** * Properties *)

(** ** Strings *)

Section StrFacts.
Import Str.

Lemma starts_with_spec (kw s : string) :
  starts_with kw s = true <-> exists post, s = (kw ++ post)%string.
Proof.
  revert s. induction kw as [|a kw IH]; intros s; simpl.
  - split; [intros _; by exists s | done].
  - destruct s as [|b s].
    + split; [done | intros [post Hpost]; discriminate].
    + rewrite andb_true_iff, IH. split.
      * intros [Hab [post ->]]. apply Ascii.eqb_eq in Hab as ->.
        by exists post.
      * intros [post Hpost]. injection Hpost as -> ->.
        split; [apply Ascii.eqb_refl | by exists post].
Qed.

Lemma contains_spec (kw s : string) :
  contains kw s = true <-> Substring kw s.
Proof.
  unfold Substring. induction s as [|c s IH].
  - cbn [contains]. rewrite orb_false_r, starts_with_spec. split.
    + intros [post ->]. by exists EmptyString, post.
    + intros [pre [post Heq]]. destruct pre; [by exists post | discriminate].
  - cbn [contains]. rewrite orb_true_iff, IH, starts_with_spec. split.
    + intros [[post ->] | [pre [post ->]]].
      * by exists EmptyString, post.
      * by exists (String c pre), post.
    + intros [pre [post Heq]]. destruct pre as [|c' pre].
      * left. by exists post.
      * right. injection Heq as -> ->. by exists pre, post.
Qed.

Lemma contains_false_spec (kw s : string) :
  contains kw s = false <-> ~ Substring kw s.
Proof.
  rewrite <- contains_spec. destruct (contains kw s); naive_solver.
Qed.


Lemma lower_lower_ascii (c : ascii) :
  lower_ascii (lower_ascii c) = lower_ascii c.
Proof. by destruct c as [[] [] [] [] [] [] [] []]. Qed.



Lemma case_variant_upper (k : string) : case_variant k (upper k).
Proof.
  induction k as [|c k IH]; constructor; [|done].
  right. by left.
Qed.

Lemma str_in_spec (x : string) (xs : list string) :
  str_in x xs = true <-> x ∈ xs.
Proof.
  unfold str_in. rewrite existsb_exists, list_elem_of_In. split.
  - intros [y [Hin Heq]]. by apply String.eqb_eq in Heq as ->.
  - intros Hin. exists x. split; [done | apply String.eqb_refl].
Qed.

Lemma str_in_false_spec (x : string) (xs : list string) :
  str_in x xs = false <-> x ∉ xs.
Proof.
  rewrite <- str_in_spec. destruct (str_in x xs); naive_solver.
Qed.

End StrFacts.

(** ** AppStreamPackage *)

Lemma Match_eqb_eq (a b : Match) : Match_eqb a b = true <-> a = b.
Proof. by destruct a, b. Qed.

Lemma Match_eqb_NONE (m : Match) : negb (Match_eqb m NONE) = true <-> m <> NONE.
Proof. by destruct m. Qed.

Lemma search_set_match (m : Match) (p : AppStreamPackage) (kw : string) :
  search (set_match m p) kw = search p kw.
Proof. done. Qed.

Lemma set_match_set_match (m m' : Match) (p : AppStreamPackage) :
  set_match m (set_match m' p) = set_match m p.
Proof. done. Qed.

Lemma set_match_id (p : AppStreamPackage) : set_match (pkg_match p) p = p.
Proof. by destruct p. Qed.

(** C2. [record.search(keyword)] answers NAME when the keyword is a
    substring of the lower-cased name; otherwise ID when it is a substring
    of the lower-cased id; otherwise SUMMARY when it is a substring of the
    lower-cased summary; otherwise NONE.  Only the first criterion that
    matches, in the order NAME, ID, SUMMARY, is reported. *)
Theorem search_match_priority (p : AppStreamPackage) (keyword : string) :
  let in_name := Str.Substring keyword (Str.lower (name p)) in
  let in_id := Str.Substring keyword (Str.lower (id p)) in
  let in_summary := Str.Substring keyword (Str.lower (summary p)) in
  (in_name -> search p keyword = NAME) /\
  (~ in_name -> in_id -> search p keyword = ID) /\
  (~ in_name -> ~ in_id -> in_summary -> search p keyword = SUMMARY) /\
  (~ in_name -> ~ in_id -> ~ in_summary -> search p keyword = NONE).
Proof.
  cbv zeta. unfold search.
  repeat split; intros;
    repeat match goal with
           | H : Str.Substring _ _ |- _ => apply contains_spec in H as ->
           | H : ~ Str.Substring _ _ |- _ => apply contains_false_spec in H as ->
           end; reflexivity.
Qed.

Example lutris_package_init :
  AppStreamPackage_init Fixtures.lutris Fixtures.flathub
  = Ok Fixtures.lutris_package.
Proof. reflexivity. Qed.

Lemma search_match_priority_witness :
  (Str.Substring "lutris" (Str.lower (name Fixtures.lutris_package)) /\
   Str.Substring "lutris" (Str.lower (id Fixtures.lutris_package)) /\
   search Fixtures.lutris_package "lutris" = NAME) /\
  (~ Str.Substring "net." (Str.lower (name Fixtures.lutris_package)) /\
   search Fixtures.lutris_package "net." = ID) /\
  search Fixtures.lutris_package "gaming" = SUMMARY /\
  search Fixtures.lutris_package "firefox" = NONE.
Proof.
  assert (Hname : Str.Substring "lutris" (Str.lower (name Fixtures.lutris_package)))
    by (exists "", " games"; reflexivity).
  assert (Hid : Str.Substring "lutris" (Str.lower (id Fixtures.lutris_package)))
    by (exists "net.", ".lutris"; reflexivity).
  assert (Hnet : ~ Str.Substring "net." (Str.lower (name Fixtures.lutris_package)))
    by (apply contains_false_spec; reflexivity).
  split; [split; [exact Hname | split; [exact Hid |]]
         | split; [split; [exact Hnet |] | split]].
  - exact (proj1 (search_match_priority Fixtures.lutris_package "lutris") Hname).
  - apply (proj1 (proj2 (search_match_priority Fixtures.lutris_package "net."))).
    + assumption.
    + exists "", "lutris.lutris". reflexivity.
  - apply (proj1 (proj2 (proj2
             (search_match_priority Fixtures.lutris_package "gaming")))).
    + apply contains_false_spec. reflexivity.
    + apply contains_false_spec. reflexivity.
    + exists "", " platform". reflexivity.
  - apply (proj2 (proj2 (proj2
             (search_match_priority Fixtures.lutris_package "firefox"))));
      apply contains_false_spec; reflexivity.
Defined.

(** C9. The version of a record is the version of the release at index 0
    when the release list is not empty, and the absent value [None] when the
    list is empty or has no entry at index 0.  [None] is not the empty
    string: a component without releases and a component whose first release
    has the version [""] have different versions. *)
Theorem version_first_release (p : AppStreamPackage) :
  (forall release rest,
     get_releases_plain (component p) = release :: rest ->
     version p = get_version release) /\
  (get_releases_plain (component p) = [] -> version p = None) /\
  (index_safe (get_releases_plain (component p)) 0 = None ->
   version p = None) /\
  (forall q rest,
     get_releases_plain (component p) = [] ->
     get_releases_plain (component q) = {| get_version := Some "" |} :: rest ->
     version q = Some "" /\ version p <> version q).
Proof.
  unfold version, box_truthy, index_safe. split; [|split; [|split]].
  - by intros release rest ->.
  - by intros ->.
  - by intros ->.
  - intros q rest Hp Hq. by rewrite Hp, Hq.
Qed.

Lemma version_first_release_witness :
  version Fixtures.lutris_package = Some "0.5.17" /\
  version (Fixtures.package Fixtures.chess Fixtures.flathub) = None /\
  version (Fixtures.package Fixtures.firefox Fixtures.flathub) = Some "" /\
  version (Fixtures.package Fixtures.chess Fixtures.flathub)
  <> version (Fixtures.package Fixtures.firefox Fixtures.flathub).
Proof.
  pose proof (version_first_release
                (Fixtures.package Fixtures.chess Fixtures.flathub))
    as (_ & Hempty & _ & Hdistinct).
  destruct (Hdistinct (Fixtures.package Fixtures.firefox Fixtures.flathub) []
              eq_refl eq_refl) as [Hff Hne].
  split; [|split; [|split]].
  - exact (proj1 (version_first_release Fixtures.lutris_package)
             {| get_version := Some "0.5.17" |}
             [ {| get_version := Some "0.5.16" |} ] eq_refl).
  - exact (Hempty eq_refl).
  - exact Hff.
  - exact Hne.
Defined.

(** ** The public search is case-insensitive in the keyword *)




(** ** The state monad *)

Lemma State_eq (s s' : State) :
  remotes s = remotes s' -> installed s = installed s' ->
  heap s = heap s' -> log s = log s' -> s = s'.
Proof. destruct s, s'; simpl; congruence. Qed.

Lemma bind_Ok {A B} (m : M A) (k : A -> M B) (s s' : State) (a : A) :
  m s = (Ok a, s') -> bind m k s = k a s'.
Proof. unfold bind. by intros ->. Qed.

Lemma bind_Raise {A B} (m : M A) (k : A -> M B) (s s' : State) (e : PyError) :
  m s = (Raise e, s') -> bind m k s = (Raise e, s').
Proof. unfold bind. by intros ->. Qed.

(** ** The loader *)

Lemma loads_refl (r : Remote) (s : State) : loads r s s [].
Proof. split; try done. by rewrite app_nil_r. Qed.

Lemma loads_trans (r : Remote) (s1 s2 s3 : State)
    (n1 n2 : list AppStreamPackage) :
  loads r s1 s2 n1 -> loads r s2 s3 n2 -> loads r s1 s3 (n1 ++ n2).
Proof.
  intros [R1 I1 L1 H1 F1] [R2 I2 L2 H2 F2]. split; try congruence.
  - by rewrite H2, H1, app_assoc.
  - apply Forall_app. split; [done | by rewrite <- I1].
Qed.

Lemma load_component_spec (r : Remote) (c : Component) (acc : list addr)
    (s : State) :
  exists new,
    loads r s (snd (load_component r c acc s)) new /\
    (forall l, fst (load_component r c acc s) = Ok l ->
               l = acc ++ seq (length (heap s)) (length new) /\
               map component new = List.filter (eligible (installed s)) [c]) /\
    (well_formed_component c -> exists l, fst (load_component r c acc s) = Ok l).
Proof.
  unfold load_component, well_formed_component, eligible, AppStreamPackage_init.
  destruct (kind_is_desktop_app (get_kind c)) eqn:Hkind; simpl.
  - destruct (get_bundle c) as [b|] eqn:Hb.
    + munfold. simpl.
      destruct (Str.str_in (bundle_get_id b) (installed s)) eqn:Hin; simpl.
      * exists []. simpl. split; [apply loads_refl|].
        split; [|by eauto]. intros l [= <-].
        by rewrite ?Hkind, ?app_nil_r.
      * eexists [_]. simpl. split; [|split].
        -- split; simpl; try done. constructor; [|done].
           split; [done|]. split; [|done]. simpl. by apply str_in_false_spec.
        -- intros l [= <-]. by rewrite ?Hkind.
        -- by eauto.
    + exists []. simpl. split; [apply loads_refl|].
      split; [done|]. intros H. destruct (H eq_refl) as [? [=]].
  - exists []. simpl. split; [apply loads_refl|].
    split; [|by eauto]. intros l [= <-]. by rewrite ?Hkind, ?app_nil_r.
Qed.

Lemma load_components_spec (r : Remote) (cs : list Component) :
  forall (acc : list addr) (s : State),
  exists new,
    loads r s (snd (load_components r cs acc s)) new /\
    (forall l, fst (load_components r cs acc s) = Ok l ->
               l = acc ++ seq (length (heap s)) (length new) /\
               map component new = List.filter (eligible (installed s)) cs) /\
    (Forall well_formed_component cs ->
     exists l, fst (load_components r cs acc s) = Ok l).
Proof.
  induction cs as [|c cs IH]; intros acc s.
  - exists []. simpl. split; [apply loads_refl|]. split; [|by eauto].
    intros l [= <-]. by rewrite app_nil_r.
  - destruct (load_component_spec r c acc s) as (new1 & Hl1 & Hok1 & Htot1).
    cbn [load_components].
    destruct (load_component r c acc s) as [[l1|e] s1] eqn:E; simpl in *;
      [rewrite (bind_Ok _ _ _ _ _ E) | rewrite (bind_Raise _ _ _ _ _ E)].
    + destruct (IH l1 s1) as (new2 & Hl2 & Hok2 & Htot2).
      exists (new1 ++ new2). split; [by eapply loads_trans|]. split.
      * intros l Hl. destruct (Hok1 l1 eq_refl) as [Hl1eq Hc1].
        destruct (Hok2 l Hl) as [Hleq Hc2].
        rewrite (loads_heap _ _ _ _ Hl1), (loads_installed _ _ _ _ Hl1) in *.
        rewrite Hleq, Hl1eq, map_app, Hc1, Hc2.
        rewrite !length_app, seq_app, <- app_assoc.
        split; [done|]. simpl. by destruct (eligible (installed s) c).
      * intros Hwf. apply Forall_cons in Hwf as [_ Hwf]. by apply Htot2.
    + exists new1. split; [done|]. split; [done|].
      intros Hwf. apply Forall_cons in Hwf as [Hwf _].
      by destruct (Htot1 Hwf) as [? [=]].
Qed.

Lemma load_range_seq (r : Remote) (cs : list Component) :
  forall (pre : list Component) (acc : list addr) (s : State),
  load_range r (pre ++ cs) (seq (length pre) (length cs)) acc s
  = load_components r cs acc s.
Proof.
  induction cs as [|c cs IH]; intros pre acc s; [done|].
  cbn [length seq load_range load_components].
  unfold load_index at 1, index_safe.
  rewrite list_lookup_middle by done.
  destruct (load_component r c acc s) as [[l1|e] s1] eqn:E;
    [rewrite !(bind_Ok _ _ _ _ _ E) | by rewrite !(bind_Raise _ _ _ _ _ E)].
  specialize (IH (pre ++ [c]) l1 s1).
  by rewrite <- app_assoc, length_app, Nat.add_1_r in IH.
Qed.

(** The index loop of the loader is one pass over the catalogue. *)
Lemma load_appstream_metadata_catalog (r : Remote) (cs : list Component)
    (s : State) :
  appstream_xml_gz r = Catalog cs ->
  _load_appstream_metadata r s = load_components r cs [] s.
Proof.
  intros Hfile. unfold _load_appstream_metadata. rewrite Hfile.
  apply (load_range_seq r cs []).
Qed.

Lemma load_appstream_metadata_spec (r : Remote) (s : State) :
  exists new,
    remotes (snd (_load_appstream_metadata r s)) = remotes s /\
    installed (snd (_load_appstream_metadata r s)) = installed s /\
    heap (snd (_load_appstream_metadata r s)) = heap s ++ new /\
    Forall (fresh_for r (installed s)) new /\
    (forall l, fst (_load_appstream_metadata r s) = Ok l ->
               l = seq (length (heap s)) (length new)).
Proof.
  destruct (appstream_xml_gz r) as [| |cs] eqn:Hfile.
  - exists []. unfold _load_appstream_metadata. rewrite Hfile. munfold. simpl.
    rewrite app_nil_r. repeat split; try done. by intros l [= <-].
  - exists []. unfold _load_appstream_metadata. rewrite Hfile. munfold. simpl.
    rewrite app_nil_r. by repeat split.
  - rewrite (load_appstream_metadata_catalog r cs s Hfile).
    destruct (load_components_spec r cs [] s) as (new & [R I L H F] & Hok & _).
    exists new. repeat split; try done. intros l Hl. by destruct (Hok l Hl).
Qed.

(** ** The dict of repositories *)

Lemma dict_mem_true {V} (k : string) (d : list (string * V)) :
  dict_mem k d = true <-> is_Some (dict_get d k).
Proof. unfold dict_mem. destruct (dict_get d k); naive_solver. Qed.

Lemma dict_mem_false {V} (k : string) (d : list (string * V)) :
  dict_mem k d = false <-> dict_get d k = None.
Proof. unfold dict_mem. destruct (dict_get d k); naive_solver. Qed.

Lemma dict_get_None {V} (k : string) (d : list (string * V)) :
  dict_get d k = None <-> k ∉ dict_keys d.
Proof.
  induction d as [|[k' v] d IH]; simpl.
  - split; [intros _; apply not_elem_of_nil | done].
  - rewrite not_elem_of_cons, <- IH.
    destruct (String.eqb_spec k k') as [->|Hne]; [|tauto].
    split; [done | by intros [? _]].
Qed.

Lemma dict_get_elem_of {V} (k : string) (v : V) (d : list (string * V)) :
  dict_get d k = Some v -> (k, v) ∈ d.
Proof.
  induction d as [|[k' v'] d IH]; simpl; [done|].
  destruct (String.eqb_spec k k') as [->|Hne].
  - intros [= ->]. apply list_elem_of_here.
  - intros H. apply list_elem_of_further. by apply IH.
Qed.

Lemma dict_set_new {V} (k : string) (v : V) (d : list (string * V)) :
  dict_get d k = None -> dict_set d k v = d ++ [(k, v)].
Proof.
  induction d as [|[k' v'] d IH]; simpl; [done|].
  destruct (String.eqb k k'); [done|]. intros H. by rewrite IH.
Qed.

Lemma dict_get_app_Some {V} (k : string) (v : V) (d d' : list (string * V)) :
  dict_get d k = Some v -> dict_get (d ++ d') k = Some v.
Proof.
  induction d as [|[k' v'] d IH]; simpl; [done|].
  by destruct (String.eqb k k').
Qed.

Lemma dict_get_app_None {V} (k : string) (d d' : list (string * V)) :
  dict_get d k = None -> dict_get (d ++ d') k = dict_get d' k.
Proof.
  induction d as [|[k' v'] d IH]; simpl; [done|].
  by destruct (String.eqb k k').
Qed.

Lemma dict_get_NoDup {V} (k : string) (v : V) (d : list (string * V)) :
  NoDup (dict_keys d) -> (k, v) ∈ d -> dict_get d k = Some v.
Proof.
  induction d as [|[k' v'] d IH]; simpl; intros Hnd Hin.
  - by apply elem_of_nil in Hin.
  - apply NoDup_cons in Hnd as [Hk' Hnd].
    apply elem_of_cons in Hin as [[= <- <-]|Hin].
    + by rewrite String.eqb_refl.
    + destruct (String.eqb_spec k k') as [->|Hne]; [|by apply IH].
      destruct Hk'. apply list_elem_of_fmap. by exists (k', v).
Qed.

(** ** add_remote *)

Lemma add_remote_known (r : Remote) (inst : Installation) (s : State) :
  dict_mem (remote_get_name r) (remotes s) = true ->
  add_remote r inst s = (Ok tt, extended inst s).
Proof. intros Hmem. unfold add_remote. munfold. simpl. by rewrite Hmem. Qed.

Lemma add_remote_new (r : Remote) (inst : Installation) (s : State) :
  dict_mem (remote_get_name r) (remotes s) = false ->
  add_remote r inst s
  = match _load_appstream_metadata r (extended inst s) with
    | (Ok packages, s1) =>
        (Ok tt, {| remotes := remotes s1 ++ [(remote_get_name r, packages)];
                   installed := installed s1; heap := heap s1;
                   log := log s1 |})
    | (Raise e, s1) => (Raise e, s1)
    end.
Proof.
  intros Hmem. unfold add_remote. munfold. simpl. rewrite Hmem. simpl.
  fold (extended inst s).
  destruct (load_appstream_metadata_spec r (extended inst s))
    as (new & HR & _).
  destruct (_load_appstream_metadata r (extended inst s)) as [[l|e] s1];
    [|done].
  simpl in HR. unfold modify. rewrite dict_set_new; [done|].
  rewrite HR. by apply dict_mem_false.
Qed.

(** What [add_remote] leaves behind for a repository that is not in the
    index yet, whether the load returns or raises. *)
Lemma add_remote_new_spec (r : Remote) (inst : Installation) (s : State) :
  dict_mem (remote_get_name r) (remotes s) = false ->
  exists new,
    installed (snd (add_remote r inst s))
    = installed s ++ installed_app_refs inst /\
    heap (snd (add_remote r inst s)) = heap s ++ new /\
    Forall (fresh_for r (installed s ++ installed_app_refs inst)) new /\
    ((fst (add_remote r inst s) = Ok tt /\
      remotes (snd (add_remote r inst s))
      = remotes s ++ [(remote_get_name r, seq (length (heap s)) (length new))])
     \/
     ((exists e, fst (add_remote r inst s) = Raise e) /\
      remotes (snd (add_remote r inst s)) = remotes s)).
Proof.
  intros Hmem. rewrite (add_remote_new r inst s Hmem).
  destruct (load_appstream_metadata_spec r (extended inst s))
    as (new & HR & HI & HH & HF & Hok).
  exists new.
  destruct (_load_appstream_metadata r (extended inst s)) as [[l|e] s1];
    simpl in *.
  - rewrite (Hok l eq_refl), HR. repeat split; try done. by left.
  - repeat split; try done. right. split; [by exists e | done].
Qed.

(** ** The search loop *)

Lemma found_at_alter (h : list AppStreamPackage) (kw : string) (m : Match)
    (a b : addr) :
  found_at (alter (set_match m) a h) kw b = found_at h kw b.
Proof.
  unfold found_at. destruct (decide (a = b)) as [->|Hne].
  - rewrite list_lookup_alter_eq. by destruct (h !! b).
  - by rewrite list_lookup_alter_ne.
Qed.

Lemma hits_alter (h : list AppStreamPackage) (kw : string) (m : Match)
    (a : addr) (l : list addr) :
  hits (alter (set_match m) a h) kw l = hits h kw l.
Proof.
  unfold hits, hit. induction l as [|b l IH]; [done|].
  simpl. by rewrite found_at_alter, IH.
Qed.

Lemma after_search_cons_hit (h : list AppStreamPackage) (kw : string)
    (a : addr) (l : list addr) (p : AppStreamPackage) :
  h !! a = Some p ->
  negb (Match_eqb (search p kw) NONE) = true ->
  imap (after_search kw l) (alter (set_match (search p kw)) a h)
  = imap (after_search kw (a :: l)) h.
Proof.
  intros Ha Hhit. apply list_eq. intros i. rewrite !list_lookup_imap.
  destruct (decide (a = i)) as [<-|Hne].
  - rewrite list_lookup_alter_eq, Ha. simpl. f_equal.
    unfold after_search. rewrite search_set_match, Hhit, set_match_set_match.
    rewrite (bool_decide_eq_true_2 (a ∈ a :: l)) by apply list_elem_of_here.
    simpl. by destruct (bool_decide (a ∈ l)).
  - rewrite list_lookup_alter_ne by done. destruct (h !! i) as [q|]; [|done].
    simpl. f_equal. unfold after_search.
    rewrite (bool_decide_ext (i ∈ a :: l) (i ∈ l)); [done|].
    rewrite elem_of_cons. split; [intros [?|?]; [congruence | done] | by right].
Qed.

Lemma after_search_cons_miss (h : list AppStreamPackage) (kw : string)
    (a : addr) (l : list addr) (p : AppStreamPackage) :
  h !! a = Some p ->
  negb (Match_eqb (search p kw) NONE) = false ->
  imap (after_search kw l) h = imap (after_search kw (a :: l)) h.
Proof.
  intros Ha Hmiss. apply list_eq. intros i. rewrite !list_lookup_imap.
  destruct (h !! i) as [q|] eqn:Hi; [|done]. simpl. f_equal.
  unfold after_search. destruct (decide (a = i)) as [<-|Hne].
  - assert (q = p) as -> by congruence. by rewrite Hmiss, !andb_false_r.
  - rewrite (bool_decide_ext (i ∈ a :: l) (i ∈ l)); [done|].
    rewrite elem_of_cons. split; [intros [?|?]; [congruence | done] | by right].
Qed.

Lemma after_search_nil (h : list AppStreamPackage) (kw : string) :
  imap (after_search kw []) h = h.
Proof.
  apply list_eq. intros i. rewrite list_lookup_imap.
  by destruct (h !! i).
Qed.

(** The loop returns the matching addresses in list order, classifies
    exactly those objects and logs one record for each. *)
Lemma search_loop_spec (kw : string) (l : list addr) :
  forall (acc : list addr) (s : State),
  live (heap s) l ->
  search_loop kw l acc s
  = (Ok (acc ++ hits (heap s) kw l), searched kw l s).
Proof.
  unfold live, searched.
  induction l as [|a l IH]; intros acc s Hlive.
  - simpl. unfold ret. rewrite app_nil_r, after_search_nil. f_equal.
    apply State_eq; simpl; by rewrite ?app_nil_r.
  - apply Forall_cons in Hlive as [[p Ha] Hlive].
    assert (Hf : found_at (heap s) kw a = search p kw)
      by (unfold found_at; by rewrite Ha).
    assert (Hh : hits (heap s) kw (a :: l)
                 = if negb (Match_eqb (search p kw) NONE)
                   then a :: hits (heap s) kw l else hits (heap s) kw l)
      by (unfold hits, hit; simpl; by rewrite Hf).
    rewrite Hh. cbn [search_loop]. unfold bind at 1, deref. rewrite Ha.
    destruct (negb (Match_eqb (search p kw) NONE)) eqn:Hhit.
    + munfold. simpl. rewrite IH; simpl.
      * rewrite hits_alter, <- app_assoc. simpl. f_equal.
        apply State_eq; simpl; try done.
        -- by apply after_search_cons_hit.
        -- rewrite <- app_assoc. simpl. rewrite Hf. do 2 f_equal.
           apply map_ext. intros b. by rewrite found_at_alter.
      * eapply Forall_impl; [exact Hlive|]. intros b Hb. simpl in *.
        apply lookup_lt_is_Some. rewrite length_alter.
        by apply lookup_lt_is_Some.
    + rewrite IH by done. f_equal. apply State_eq; simpl; try done.
      by apply (after_search_cons_miss _ _ _ _ p).
Qed.

Lemma after_search_search (kw kw' : string) (l : list addr) (a : addr)
    (p : AppStreamPackage) :
  search (after_search kw l a p) kw' = search p kw'.
Proof. unfold after_search. by destruct (_ && _). Qed.

Lemma after_search_repo_name (kw : string) (l : list addr) (a : addr)
    (p : AppStreamPackage) :
  repo_name (after_search kw l a p) = repo_name p.
Proof. unfold after_search. by destruct (_ && _). Qed.

Lemma after_search_bundle (kw : string) (l : list addr) (a : addr)
    (p : AppStreamPackage) :
  flatpak_bundle (after_search kw l a p) = flatpak_bundle p.
Proof. unfold after_search. by destruct (_ && _). Qed.

Lemma found_at_searched (h : list AppStreamPackage) (kw kw' : string)
    (l : list addr) (a : addr) :
  found_at (imap (after_search kw l) h) kw' a = found_at h kw' a.
Proof.
  unfold found_at. rewrite list_lookup_imap.
  destruct (h !! a); [apply after_search_search | done].
Qed.

Lemma hits_searched (h : list AppStreamPackage) (kw kw' : string)
    (l l' : list addr) :
  hits (imap (after_search kw l) h) kw' l' = hits h kw' l'.
Proof.
  unfold hits, hit. induction l' as [|b l' IH]; [done|].
  simpl. by rewrite found_at_searched, IH.
Qed.

Lemma hits_app (h : list AppStreamPackage) (kw : string) (l l' : list addr) :
  hits h kw (l ++ l') = hits h kw l ++ hits h kw l'.
Proof. apply List.filter_app. Qed.

Lemma live_searched (h : list AppStreamPackage) (kw : string)
    (l l' : list addr) :
  live h l' -> live (imap (after_search kw l) h) l'.
Proof.
  unfold live. intros H. eapply Forall_impl; [exact H|]. intros a Ha.
  apply lookup_lt_is_Some. rewrite length_imap. by apply lookup_lt_is_Some.
Qed.

Lemma after_search_app (h : list AppStreamPackage) (kw : string)
    (l l' : list addr) :
  imap (after_search kw l') (imap (after_search kw l) h)
  = imap (after_search kw (l ++ l')) h.
Proof.
  apply list_eq. intros i. rewrite !list_lookup_imap.
  destruct (h !! i) as [p|]; [|done]. simpl. f_equal.
  unfold after_search at 2 3.
  rewrite (bool_decide_ext (i ∈ l ++ l') (i ∈ l \/ i ∈ l'))
    by apply elem_of_app.
  destruct (negb (Match_eqb (search p kw) NONE)) eqn:Hhit.
  - destruct (decide (i ∈ l)) as [Hl|Hl].
    + rewrite (bool_decide_eq_true_2 (i ∈ l)) by done.
      rewrite (bool_decide_eq_true_2 (i ∈ l \/ i ∈ l')) by (by left).
      simpl. unfold after_search.
      rewrite search_set_match, Hhit, set_match_set_match.
      by destruct (bool_decide (i ∈ l')).
    + rewrite (bool_decide_eq_false_2 (i ∈ l)) by done. simpl.
      unfold after_search. rewrite Hhit.
      rewrite (bool_decide_ext (i ∈ l \/ i ∈ l') (i ∈ l')); [done|].
      tauto.
  - rewrite !andb_false_r. unfold after_search. by rewrite Hhit, andb_false_r.
Qed.

Lemma searched_nil (kw : string) (s : State) : searched kw [] s = s.
Proof.
  unfold searched. apply State_eq; simpl; try done.
  - apply after_search_nil.
  - by rewrite app_nil_r.
Qed.

Lemma searched_app (kw : string) (l l' : list addr) (s : State) :
  searched kw l' (searched kw l s) = searched kw (l ++ l') s.
Proof.
  unfold searched. apply State_eq; simpl; try done.
  - apply after_search_app.
  - rewrite hits_searched, hits_app, map_app, <- app_assoc. do 2 f_equal.
    apply map_ext. intros a. by rewrite found_at_searched.
Qed.

(** ** search_flatpak_repo and search_flatpak *)

Lemma search_flatpak_repo_unknown (kw n : string) (s : State) :
  dict_get (remotes s) n = None ->
  search_flatpak_repo kw n s = (Raise (KeyError n), s).
Proof. intros Hn. unfold search_flatpak_repo. munfold. simpl. by rewrite Hn. Qed.

Lemma search_flatpak_repo_known (kw n : string) (l : list addr) (s : State) :
  dict_get (remotes s) n = Some l ->
  live (heap s) l ->
  search_flatpak_repo kw n s = (Ok (hits (heap s) kw l), searched kw l s).
Proof.
  intros Hn Hlive. unfold search_flatpak_repo. munfold. simpl. rewrite Hn.
  by rewrite (search_loop_spec kw l [] s Hlive).
Qed.

(** The loop over the keys, for any part [es] of the dict that remains to
    be visited. *)
Lemma search_all_spec (kw : string) (es : list (string * list addr)) :
  forall (acc : list addr) (s : State),
  Forall (fun e => dict_get (remotes s) (fst e) = Some (snd e)
                   /\ live (heap s) (snd e)) es ->
  search_all kw (dict_keys es) acc s
  = (Ok (acc ++ concat (map (fun e => hits (heap s) kw (snd e)) es)),
     searched kw (concat (map snd es)) s).
Proof.
  induction es as [|[n l] es IH]; intros acc s Hes.
  - simpl. unfold ret. by rewrite app_nil_r, searched_nil.
  - apply Forall_cons in Hes as [[Hn Hlive] Hes]. simpl in Hn, Hlive.
    cbn [dict_keys map fst search_all concat snd].
    rewrite (bind_Ok _ _ _ _ _ (search_flatpak_repo_known kw n l s Hn Hlive)).
    fold (dict_keys es). rewrite IH.
    + assert (Hm : map (fun e : string * list addr =>
                          hits (heap (searched kw l s)) kw (snd e)) es
                   = map (fun e => hits (heap s) kw (snd e)) es)
        by (apply map_ext; intros e; apply hits_searched).
      by rewrite searched_app, <- app_assoc, Hm.
    + eapply Forall_impl; [exact Hes|]. intros e [He1 He2]. simpl.
      split; [done | by apply live_searched].
Qed.

Lemma concat_hits (h : list AppStreamPackage) (kw : string)
    (es : list (string * list addr)) :
  concat (map (fun e => hits h kw (snd e)) es)
  = hits h kw (concat (map snd es)).
Proof.
  induction es as [|e es IH]; [done|]. simpl. by rewrite hits_app, IH.
Qed.

(** ** The state invariant *)

Lemma stored_ok_live (s : State) (n : string) (l : list addr) :
  Forall (stored_ok s n) l -> live (heap s) l.
Proof.
  intros H. eapply Forall_impl; [exact H|]. intros a (p & Hp & _). by exists p.
Qed.

Lemma elem_of_all_packages (s : State) (a : addr) :
  a ∈ all_packages s <-> exists n l, (n, l) ∈ remotes s /\ a ∈ l.
Proof.
  unfold all_packages. rewrite list_elem_of_In, in_concat. split.
  - intros (l & Hl & Ha). apply in_map_iff in Hl as ([n l'] & <- & Hin).
    exists n, l'. by rewrite !list_elem_of_In.
  - intros (n & l & Hin & Ha). exists l. rewrite <- !list_elem_of_In.
    split; [|done]. apply list_elem_of_In, in_map_iff. exists (n, l).
    by rewrite <- list_elem_of_In.
Qed.

Lemma wf_entries (s : State) :
  wf s ->
  Forall (fun e => dict_get (remotes s) (fst e) = Some (snd e)
                   /\ live (heap s) (snd e)) (remotes s).
Proof.
  intros (Hkeys & _ & Hok). apply Forall_forall. intros [n l] Hin.
  rewrite Forall_forall in Hok. simpl. split.
  - by apply dict_get_NoDup.
  - apply (stored_ok_live s n). apply (Hok _ Hin).
Qed.

Lemma wf_dict_get (s : State) (n : string) (l : list addr) :
  wf s -> dict_get (remotes s) n = Some l -> Forall (stored_ok s n) l.
Proof.
  intros (_ & _ & Hok) Hn. rewrite Forall_forall in Hok.
  apply (Hok (n, l)). by apply dict_get_elem_of.
Qed.

Lemma wf_init : wf init.
Proof. repeat split; simpl; constructor. Qed.

Lemma wf_same_index (s s' : State) :
  remotes s' = remotes s ->
  (forall n a, stored_ok s n a -> stored_ok s' n a) ->
  wf s -> wf s'.
Proof.
  intros HR Hok (Hkeys & Hnd & Hall). unfold wf, all_packages.
  rewrite HR. repeat split; try done.
  eapply Forall_impl; [exact Hall|]. intros e He.
  eapply Forall_impl; [exact He|]. intros a. apply Hok.
Qed.

Lemma wf_searched (kw : string) (l : list addr) (s : State) :
  wf s -> wf (searched kw l s).
Proof.
  apply wf_same_index; [done|]. intros n a (p & Hp & Hn).
  exists (after_search kw l a p). simpl.
  by rewrite list_lookup_imap, Hp, after_search_repo_name.
Qed.

Lemma wf_extended (inst : Installation) (s : State) :
  wf s -> wf (extended inst s).
Proof. by apply wf_same_index. Qed.

Lemma stored_ok_heap_app (s s' : State) (new : list AppStreamPackage)
    (n : string) (a : addr) :
  heap s' = heap s ++ new -> stored_ok s n a -> stored_ok s' n a.
Proof.
  intros HH (p & Hp & Hn). exists p. split; [|done].
  rewrite HH. by apply lookup_app_l_Some.
Qed.

Lemma wf_add_remote (r : Remote) (inst : Installation) (s : State) :
  wf s -> wf (snd (add_remote r inst s)).
Proof.
  intros Hwf.
  destruct (dict_mem (remote_get_name r) (remotes s)) eqn:Hmem.
  - rewrite (add_remote_known r inst s Hmem). by apply wf_extended.
  - destruct (add_remote_new_spec r inst s Hmem)
      as (new & _ & HH & Hfresh & [[_ HR]|[_ HR]]).
    + destruct Hwf as (Hkeys & Hnd & Hall).
      assert (Hold : forall a, a ∈ all_packages s -> a < length (heap s)).
      { intros a Ha. apply elem_of_all_packages in Ha as (n & l & Hin & Hal).
        rewrite Forall_forall in Hall. specialize (Hall _ Hin). simpl in Hall.
        rewrite Forall_forall in Hall.
        destruct (Hall a Hal) as (p & Hp & _). by apply lookup_lt_Some in Hp. }
      unfold wf, all_packages, dict_keys. rewrite HR.
      rewrite !map_app, concat_app. simpl. rewrite app_nil_r.
      split; [|split].
      * apply NoDup_app. split; [done|]. split; [|apply NoDup_singleton].
        intros k Hk Hk'. apply list_elem_of_singleton in Hk' as ->.
        apply dict_mem_false, dict_get_None in Hmem. by apply Hmem.
      * apply NoDup_app. split; [done|]. split; [|apply NoDup_seq].
        intros a Ha Ha'. apply Hold in Ha. apply elem_of_seq in Ha'. lia.
      * apply Forall_app. split.
        -- eapply Forall_impl; [exact Hall|]. intros e He.
           eapply Forall_impl; [exact He|]. intros a.
           by apply (stored_ok_heap_app s _ new).
        -- constructor; [|constructor]. simpl. apply Forall_forall.
           intros a Ha. apply elem_of_seq in Ha.
           destruct (lookup_lt_is_Some_2 new (a - length (heap s)))
             as [p Hp]; [lia|].
           exists p. rewrite HH. split.
           ++ rewrite lookup_app_r by lia. done.
           ++ rewrite Forall_forall in Hfresh.
              apply (Hfresh p). by apply list_elem_of_lookup_2 in Hp.
    + eapply wf_same_index; [exact HR| |exact Hwf].
      intros n a. by apply (stored_ok_heap_app s _ new).
Qed.

Lemma wf_add_installation_loop (rs : list Remote) (inst : Installation) :
  forall s, wf s -> wf (snd (add_installation_loop rs inst s)).
Proof.
  induction rs as [|r rs IH]; intros s Hwf; [done|].
  cbn [add_installation_loop]. unfold bind.
  destruct (get_disabled r); simpl.
  - by apply IH.
  - pose proof (wf_add_remote r inst s Hwf) as Hwf'.
    destruct (add_remote r inst s) as [[[]|e] s1]; simpl in *; [|done].
    by apply IH.
Qed.

Lemma search_flatpak_repo_state (kw n : string) (s : State) :
  wf s ->
  snd (search_flatpak_repo kw n s)
  = searched kw (default [] (dict_get (remotes s) n)) s.
Proof.
  intros Hwf. destruct (dict_get (remotes s) n) as [l|] eqn:Hn; simpl.
  - rewrite (search_flatpak_repo_known kw n l s Hn); [done|].
    apply (stored_ok_live s n). by apply wf_dict_get.
  - by rewrite (search_flatpak_repo_unknown kw n s Hn), searched_nil.
Qed.

Lemma search_flatpak_global (kw : string) (repo : option string) (s : State) :
  wf s -> truthy repo = false ->
  search_flatpak kw repo s
  = (Ok (concat (map (fun e => hits (heap s) (Str.lower kw) (snd e))
                     (remotes s))),
     searched (Str.lower kw) (all_packages s) s).
Proof.
  intros Hwf Hrepo. unfold search_flatpak. rewrite Hrepo.
  unfold bind at 1, gets.
  apply (search_all_spec (Str.lower kw) (remotes s) [] s).
  by apply wf_entries.
Qed.

Lemma search_flatpak_scoped (kw : string) (repo : option string) (s : State) :
  truthy repo = true ->
  search_flatpak kw repo s
  = search_flatpak_repo (Str.lower kw) (default "" repo) s.
Proof. intros Hrepo. unfold search_flatpak. by rewrite Hrepo. Qed.

Lemma search_flatpak_state (kw : string) (repo : option string) (s : State) :
  wf s ->
  snd (search_flatpak kw repo s)
  = searched (Str.lower kw) (scanned s repo) s.
Proof.
  intros Hwf. unfold scanned. destruct (truthy repo) eqn:Hrepo.
  - rewrite (search_flatpak_scoped kw repo s Hrepo).
    by apply search_flatpak_repo_state.
  - by rewrite (search_flatpak_global kw repo s Hwf Hrepo).
Qed.

Lemma wf_run_call (c : Call) (s : State) : wf s -> wf (run_call c s).
Proof.
  intros Hwf. destruct c as [inst|r inst|kw repo|kw n]; simpl.
  - by apply wf_add_installation_loop.
  - by apply wf_add_remote.
  - rewrite search_flatpak_state by done. by apply wf_searched.
  - rewrite search_flatpak_repo_state by done. by apply wf_searched.
Qed.

(** Every state of a session satisfies the invariant. *)
Lemma reachable_wf (s : State) : reachable s -> wf s.
Proof.
  induction 1 as [|c s _ IH]; [apply wf_init | by apply wf_run_call].
Qed.

Lemma reachable_session : reachable Fixtures.session.
Proof. apply reachable_call, reachable_init. Qed.

Lemma truthy_Some (n : string) : truthy (Some n) = true <-> n <> "".
Proof. by destruct n. Qed.

(** ** Unknown repository *)

(** C5. A search scoped to a repository name that was never added raises
    the lookup error [KeyError] and leaves the state as it was: nothing is
    returned, no record is classified and nothing is logged.  This holds
    for [search_flatpak_repo] with any name, and for [search_flatpak] with
    any name that its test [if repo_name:] takes for a repository name,
    that is, any non-empty name. *)
Theorem search_unknown_repository (s : State) (keyword n : string) :
  dict_mem n (remotes s) = false ->
  search_flatpak_repo keyword n s = (Raise (KeyError n), s) /\
  (n <> "" -> search_flatpak keyword (Some n) s = (Raise (KeyError n), s)).
Proof.
  intros Hmem. apply dict_mem_false in Hmem. split.
  - by apply search_flatpak_repo_unknown.
  - intros Hn. apply truthy_Some in Hn.
    rewrite (search_flatpak_scoped keyword (Some n) s Hn). simpl.
    by apply search_flatpak_repo_unknown.
Qed.

Lemma search_unknown_repository_witness :
  dict_mem "elementary" (remotes Fixtures.session) = false /\
  search_flatpak_repo "game" "elementary" Fixtures.session
  = (Raise (KeyError "elementary"), Fixtures.session) /\
  search_flatpak "Game" (Some "elementary") Fixtures.session
  = (Raise (KeyError "elementary"), Fixtures.session).
Proof.
  assert (Hmem : dict_mem "elementary" (remotes Fixtures.session) = false)
    by (vm_compute; reflexivity).
  destruct (search_unknown_repository Fixtures.session "game" "elementary" Hmem)
    as [Hrepo _].
  destruct (search_unknown_repository Fixtures.session "Game" "elementary" Hmem)
    as [_ Hpublic].
  split; [exact Hmem | split; [exact Hrepo | apply Hpublic; discriminate]].
Defined.

(** The empty string is not taken for a repository name by [search_flatpak]:
    it scans every repository, as [None] does. *)
Example search_flatpak_empty_name :
  fst (search_flatpak "game" (Some "") Fixtures.session)
  = fst (search_flatpak "game" None Fixtures.session).
Proof. vm_compute. reflexivity. Qed.

(** ** Scoped and global search *)

Lemma elem_of_hits (h : list AppStreamPackage) (kw : string) (l : list addr)
    (a : addr) :
  a ∈ hits h kw l <-> a ∈ l /\ hit h kw a = true.
Proof. unfold hits. by rewrite !list_elem_of_In, filter_In. Qed.

(** C6. A search with a repository name returns the matching records of
    that repository's list, in the order of the list, and each of them has
    that name as its [repo_name].  A search without a repository name
    returns the matches of every repository, repository after repository in
    the insertion order of the index, each group in the order of that
    repository's list, and no record twice. *)
Theorem search_scope_and_order (s : State) (keyword : string)
    (repo : option string) :
  reachable s ->
  let k := Str.lower keyword in
  let s' := snd (search_flatpak keyword repo s) in
  (forall n l,
     repo = Some n -> n <> "" -> dict_get (remotes s) n = Some l ->
     fst (search_flatpak keyword repo s) = Ok (hits (heap s) k l) /\
     Forall (fun a => exists p, heap s' !! a = Some p /\ repo_name p = n)
            (hits (heap s) k l)) /\
  (truthy repo = false ->
     fst (search_flatpak keyword repo s)
     = Ok (concat (map (fun e => hits (heap s) k (snd e)) (remotes s))) /\
     NoDup (concat (map (fun e => hits (heap s) k (snd e)) (remotes s)))).
Proof.
  intros Hreach k s'. pose proof (reachable_wf s Hreach) as Hwf. split.
  - intros n l -> Hn Hl. apply truthy_Some in Hn.
    pose proof (wf_dict_get s n l Hwf Hl) as Hok.
    assert (Hrun : search_flatpak keyword (Some n) s
                   = (Ok (hits (heap s) k l), searched k l s)).
    { rewrite (search_flatpak_scoped keyword (Some n) s Hn). simpl.
      apply search_flatpak_repo_known; [done|]. by apply (stored_ok_live s n). }
    subst s'. rewrite Hrun. simpl. split; [done|].
    apply Forall_forall. intros a Ha. apply elem_of_hits in Ha as [Ha _].
    rewrite Forall_forall in Hok. destruct (Hok a Ha) as (p & Hp & Hname).
    exists (after_search k l a p).
    by rewrite list_lookup_imap, Hp, after_search_repo_name.
  - intros Hrepo. rewrite (search_flatpak_global keyword repo s Hwf Hrepo).
    split; [done|]. rewrite concat_hits.
    apply NoDup_ListNoDup, List.NoDup_filter, NoDup_ListNoDup.
    by destruct Hwf as (_ & Hnd & _).
Qed.

Lemma search_scope_and_order_witness :
  reachable Fixtures.session /\
  fst (search_flatpak "game" (Some "flathub") Fixtures.session) = Ok [0; 1] /\
  fst (search_flatpak "game" None Fixtures.session) = Ok [0; 1; 2] /\
  NoDup [0; 1; 2].
Proof.
  pose proof (search_scope_and_order Fixtures.session "game"
                (Some "flathub") reachable_session) as [Hscoped _].
  pose proof (search_scope_and_order Fixtures.session "game"
                None reachable_session) as [_ Hglobal].
  destruct (Hscoped "flathub" [0; 1] eq_refl ltac:(discriminate) eq_refl)
    as [Hres _].
  destruct (Hglobal eq_refl) as [Hall Hnd].
  split; [exact reachable_session | split; [exact Hres | split]].
  - exact Hall.
  - exact Hnd.
Defined.

(** ** The match field across searches *)

Lemma scanned_searched (kw : string) (l : list addr) (s : State)
    (repo : option string) :
  scanned (searched kw l s) repo = scanned s repo.
Proof. done. Qed.

Lemma last_match_ext (s s' : State) (a : addr) (p p' : AppStreamPackage)
    (qs : list (string * option string)) :
  remotes s' = remotes s ->
  (forall kw, search p' kw = search p kw) ->
  forall m, last_match s' a p' m qs = last_match s a p m qs.
Proof.
  intros HR Hsearch.
  assert (Hsc : forall repo, scanned s' repo = scanned s repo)
    by (intros repo; unfold scanned, all_packages; by rewrite HR).
  unfold last_match. induction qs as [|q qs IH]; intros m; [done|].
  simpl. rewrite Hsearch, Hsc. apply IH.
Qed.

Lemma run_searches_cons (kw : string) (repo : option string)
    (qs : list (string * option string)) (s : State) :
  run_searches ((kw, repo) :: qs) s
  = run_searches qs (snd (search_flatpak kw repo s)).
Proof. done. Qed.

Lemma run_searches_heap (qs : list (string * option string)) :
  forall (s : State) (a : addr) (p : AppStreamPackage),
  wf s ->
  heap s !! a = Some p ->
  heap (run_searches qs s) !! a
  = Some (set_match (last_match s a p (pkg_match p) qs) p).
Proof.
  induction qs as [|[kw repo] qs IH]; intros s a p Hwf Hp.
  - simpl. by rewrite set_match_id.
  - rewrite run_searches_cons, (search_flatpak_state kw repo s Hwf).
    set (k := Str.lower kw). set (l := scanned s repo).
    rewrite (IH (searched k l s) a (after_search k l a p)).
    + rewrite (last_match_ext s (searched k l s) a p (after_search k l a p))
        by (done || intros; apply after_search_search).
      unfold last_match at 2. cbn [foldl fst snd]. fold k l.
      unfold after_search.
      destruct (bool_decide (a ∈ l) && negb (Match_eqb (search p k) NONE));
        simpl; by rewrite ?set_match_set_match.
    + by apply wf_searched.
    + simpl. by rewrite list_lookup_imap, Hp.
Qed.

(** C10. A search changes the [match] field of the records it returns and
    of no other record: a returned record gets the classification of this
    search, which is not NONE, and a record that is not returned, whether
    it was scanned and classified NONE or not scanned at all, is left as it
    was, with the [match] value an earlier search gave it.  So after any
    sequence of searches the [match] field of a record holds the
    classification of the most recent search that matched it, and its
    initial value when none did. *)
Theorem search_updates_returned_only (s : State) :
  reachable s ->
  (forall keyword repo res,
     fst (search_flatpak keyword repo s) = Ok res ->
     forall a p,
       heap s !! a = Some p ->
       (a ∈ res ->
        search p (Str.lower keyword) <> NONE /\
        heap (snd (search_flatpak keyword repo s)) !! a
        = Some (set_match (search p (Str.lower keyword)) p)) /\
       (a ∉ res ->
        heap (snd (search_flatpak keyword repo s)) !! a = Some p)) /\
  (forall qs a p,
     heap s !! a = Some p ->
     heap (run_searches qs s) !! a
     = Some (set_match (last_match s a p (pkg_match p) qs) p)).
Proof.
  intros Hreach. pose proof (reachable_wf s Hreach) as Hwf. split.
  - intros keyword repo res Hres a p Hp.
    set (k := Str.lower keyword).
    assert (Hhits : res = hits (heap s) k (scanned s repo)).
    { unfold scanned. destruct (truthy repo) eqn:Hrepo.
      - rewrite (search_flatpak_scoped keyword repo s Hrepo) in Hres.
        destruct (dict_get (remotes s) (default "" repo)) as [l|] eqn:Hl.
        + rewrite (search_flatpak_repo_known _ _ l s Hl) in Hres.
          * simpl in Hres. by injection Hres as <-.
          * apply (stored_ok_live s (default "" repo)). by apply wf_dict_get.
        + by rewrite (search_flatpak_repo_unknown _ _ s Hl) in Hres.
      - rewrite (search_flatpak_global keyword repo s Hwf Hrepo) in Hres.
        simpl in Hres. injection Hres as <-. apply concat_hits. }
    rewrite (search_flatpak_state keyword repo s Hwf). fold k. simpl.
    rewrite list_lookup_imap, Hp. simpl. subst res.
    assert (Hhit : hit (heap s) k a = negb (Match_eqb (search p k) NONE))
      by (unfold hit, found_at; by rewrite Hp).
    unfold after_search. split.
    + intros Ha. apply elem_of_hits in Ha as [Hin Hyes]. rewrite Hhit in Hyes.
      rewrite (bool_decide_eq_true_2 _ Hin), Hyes. simpl.
      split; [by apply Match_eqb_NONE | done].
    + intros Ha. rewrite elem_of_hits, Hhit in Ha.
      destruct (bool_decide_reflect (a ∈ scanned s repo)) as [Hin|Hout];
        [|done].
      destruct (negb (Match_eqb (search p k) NONE)); [|done].
      by destruct Ha.
  - intros qs a p Hp. by apply run_searches_heap.
Qed.

Lemma search_updates_returned_only_witness :
  reachable Fixtures.session /\
  pkg_match <$> heap (run_searches [("Lutris", None); ("chess", None)]
                        Fixtures.session) !! 0
  = Some NAME /\
  pkg_match <$> heap (run_searches [("Lutris", None); ("net.", Some "flathub")]
                        Fixtures.session) !! 2
  = Some NAME.
Proof.
  destruct (search_updates_returned_only Fixtures.session reachable_session)
    as [_ Hseq].
  split; [exact reachable_session | split].
  - rewrite (Hseq [("Lutris", None); ("chess", None)] 0
               (Fixtures.package Fixtures.lutris Fixtures.flathub) eq_refl).
    vm_compute. reflexivity.
  - rewrite (Hseq [("Lutris", None); ("net.", Some "flathub")] 2
               (Fixtures.package Fixtures.lutris Fixtures.beta) eq_refl).
    vm_compute. reflexivity.
Defined.

(** ** add_remote on a missing and on a readable catalogue *)

Lemma load_appstream_metadata_missing (r : Remote) (s : State) :
  appstream_xml_gz r = Missing ->
  _load_appstream_metadata r s = (Ok [], logged_missing r s).
Proof. intros Hfile. unfold _load_appstream_metadata. by rewrite Hfile. Qed.

Lemma load_appstream_metadata_corrupt (r : Remote) (s : State) :
  appstream_xml_gz r = Corrupt ->
  _load_appstream_metadata r s
  = (Raise (GLibError (appstream_file_path r)), s).
Proof. intros Hfile. unfold _load_appstream_metadata. by rewrite Hfile. Qed.

Lemma load_appstream_metadata_readable (r : Remote) (cs : list Component)
    (s : State) :
  appstream_xml_gz r = Catalog cs ->
  Forall well_formed_component cs ->
  exists new,
    _load_appstream_metadata r s
    = (Ok (seq (length (heap s)) (length new)), allocated new s) /\
    map component new = List.filter (eligible (installed s)) cs /\
    Forall (fresh_for r (installed s)) new.
Proof.
  intros Hfile Hwf. rewrite (load_appstream_metadata_catalog r cs s Hfile).
  destruct (load_components_spec r cs [] s)
    as (new & [HR HI HL HH HF] & Hok & Htot).
  destruct (Htot Hwf) as [l Hl]. destruct (Hok l Hl) as [-> Hmap].
  exists new. split; [|done].
  destruct (load_components r cs [] s) as [res s1]. simpl in *. subst res.
  f_equal. by apply State_eq.
Qed.

Lemma add_remote_missing (r : Remote) (inst : Installation) (s : State) :
  appstream_xml_gz r = Missing ->
  dict_mem (remote_get_name r) (remotes s) = false ->
  add_remote r inst s
  = (Ok tt, registered (remote_get_name r) []
              (logged_missing r (extended inst s))).
Proof.
  intros Hfile Hmem. rewrite (add_remote_new r inst s Hmem).
  by rewrite (load_appstream_metadata_missing r _ Hfile).
Qed.

Lemma add_remote_corrupt (r : Remote) (inst : Installation) (s : State) :
  appstream_xml_gz r = Corrupt ->
  dict_mem (remote_get_name r) (remotes s) = false ->
  add_remote r inst s
  = (Raise (GLibError (appstream_file_path r)), extended inst s).
Proof.
  intros Hfile Hmem. rewrite (add_remote_new r inst s Hmem).
  by rewrite (load_appstream_metadata_corrupt r _ Hfile).
Qed.

Lemma add_remote_readable (r : Remote) (cs : list Component)
    (inst : Installation) (s : State) :
  appstream_xml_gz r = Catalog cs ->
  Forall well_formed_component cs ->
  dict_mem (remote_get_name r) (remotes s) = false ->
  exists new,
    add_remote r inst s
    = (Ok tt, registered (remote_get_name r)
                (seq (length (heap s)) (length new))
                (allocated new (extended inst s))) /\
    map component new
    = List.filter (eligible (installed s ++ installed_app_refs inst)) cs.
Proof.
  intros Hfile Hwf Hmem. rewrite (add_remote_new r inst s Hmem).
  destruct (load_appstream_metadata_readable r cs (extended inst s) Hfile Hwf)
    as (new & -> & Hmap & _).
  by exists new.
Qed.

Lemma add_installation_loop_app (pre post : list Remote)
    (inst : Installation) (s : State) :
  add_installation_loop (pre ++ post) inst s
  = bind (add_installation_loop pre inst)
         (fun _ => add_installation_loop post inst) s.
Proof.
  revert s. induction pre as [|r pre IH]; intros s; [done|].
  cbn [app add_installation_loop].
  destruct ((if negb (get_disabled r) then add_remote r inst else ret tt) s)
    as [[[]|e] s1] eqn:E.
  - rewrite (bind_Ok _ _ _ _ _ E), IH.
    unfold bind at 2. by rewrite (bind_Ok _ _ _ _ _ E).
  - rewrite (bind_Raise _ _ _ _ _ E).
    unfold bind at 1. by rewrite (bind_Raise _ _ _ _ _ E).
Qed.

(** ** Loading a repository twice *)

(** C4, as the claim states it, fails: the second call of [add_remote] for
    a repository that is already in the index is not without effect, it
    appends the installed refs to [self.installed] once more. *)
Lemma add_remote_twice_counterexample :
  dict_mem (remote_get_name Fixtures.flathub) (remotes Fixtures.once) = true /\
  Fixtures.twice <> Fixtures.once /\
  installed Fixtures.once = ["app/org.mozilla.firefox/x86_64/stable"] /\
  installed Fixtures.twice
  = ["app/org.mozilla.firefox/x86_64/stable";
     "app/org.mozilla.firefox/x86_64/stable"].
Proof.
  assert (Hlen : length (installed Fixtures.twice)
                 <> length (installed Fixtures.once))
    by (vm_compute; discriminate).
  split; [by vm_compute | split; [|split; by vm_compute]].
  intros Heq. apply Hlen. by rewrite Heq.
Qed.

(** C4 (amended). A call of [add_remote] with a repository whose name is
    already a key of the index returns normally and leaves the index, every
    stored record and the log as they were; the metadata file is not read,
    so the outcome is the same for every remote of that name whatever its
    file holds.  The call still appends the installed application refs of
    the installation to [self.installed]. *)
Theorem add_remote_known_repository (r : Remote) (inst : Installation)
    (s : State) :
  dict_mem (remote_get_name r) (remotes s) = true ->
  fst (add_remote r inst s) = Ok tt /\
  remotes (snd (add_remote r inst s)) = remotes s /\
  heap (snd (add_remote r inst s)) = heap s /\
  log (snd (add_remote r inst s)) = log s /\
  installed (snd (add_remote r inst s))
  = installed s ++ installed_app_refs inst /\
  (forall r', remote_get_name r' = remote_get_name r ->
              add_remote r' inst s = add_remote r inst s).
Proof.
  intros Hmem. rewrite (add_remote_known r inst s Hmem). simpl.
  repeat split. intros r' Hname.
  apply add_remote_known. by rewrite Hname.
Qed.

Lemma add_remote_known_repository_witness :
  dict_mem (remote_get_name Fixtures.flathub) (remotes Fixtures.once) = true /\
  remotes Fixtures.twice = remotes Fixtures.once /\
  heap Fixtures.twice = heap Fixtures.once /\
  add_remote Fixtures.broken
    {| list_remotes := []; installed_app_refs := [] |}
    (registered "broken" [] init)
  = (Ok tt, registered "broken" [] init).
Proof.
  assert (Hmem : dict_mem (remote_get_name Fixtures.flathub)
                   (remotes Fixtures.once) = true)
    by (vm_compute; reflexivity).
  destruct (add_remote_known_repository Fixtures.flathub Fixtures.system
              Fixtures.once Hmem) as (_ & HR & HH & _).
  destruct (add_remote_known_repository Fixtures.broken
              {| list_remotes := []; installed_app_refs := [] |}
              (registered "broken" [] init) eq_refl) as (Hok & _).
  split; [exact Hmem | split; [exact HR | split; [exact HH |]]].
  vm_compute. reflexivity.
Defined.

(** ** A corrupt catalogue *)

(** C3, as the claim states it, fails: [add_installation] has no handler,
    so the parse error of one repository ends the loop and the repositories
    listed after it are not loaded. *)
Lemma parse_failure_counterexample :
  list_remotes Fixtures.system_broken
  = [Fixtures.flathub; Fixtures.broken; Fixtures.beta] /\
  get_disabled Fixtures.beta = false /\
  appstream_xml_gz Fixtures.beta = Catalog [Fixtures.lutris] /\
  fst (add_installation Fixtures.system_broken init)
  = Raise (GLibError (appstream_file_path Fixtures.broken)) /\
  dict_get (remotes (snd (add_installation Fixtures.system_broken init)))
           (remote_get_name Fixtures.beta) = None /\
  dict_keys (remotes (snd (add_installation Fixtures.system_broken init)))
  = ["flathub"].
Proof. repeat split; by vm_compute. Qed.

(** C3 (amended). A parse failure in the metadata file of an enabled
    repository that is not in the index yet is raised by [add_installation]
    to its caller.  The repositories listed before the failing one keep
    what was loaded for them, the failing repository gets no entry, and the
    repositories listed after it are not attempted in that call: the index
    is the one reached before the failing repository. *)
Theorem parse_failure_stops_add_installation (inst : Installation)
    (pre post : list Remote) (bad : Remote) (s : State) :
  list_remotes inst = pre ++ bad :: post ->
  fst (add_installation_loop pre inst s) = Ok tt ->
  get_disabled bad = false ->
  appstream_xml_gz bad = Corrupt ->
  dict_mem (remote_get_name bad)
           (remotes (snd (add_installation_loop pre inst s))) = false ->
  add_installation inst s
  = (Raise (GLibError (appstream_file_path bad)),
     extended inst (snd (add_installation_loop pre inst s))) /\
  remotes (snd (add_installation inst s))
  = remotes (snd (add_installation_loop pre inst s)) /\
  heap (snd (add_installation inst s))
  = heap (snd (add_installation_loop pre inst s)).
Proof.
  intros Hlist Hpre Hen Hfile Hmem.
  assert (Hrun : add_installation inst s
                 = (Raise (GLibError (appstream_file_path bad)),
                    extended inst (snd (add_installation_loop pre inst s)))).
  { unfold add_installation. rewrite Hlist, add_installation_loop_app.
    destruct (add_installation_loop pre inst s) as [[[]|e] s1] eqn:E;
      [|done].
    rewrite (bind_Ok _ _ _ _ _ E). simpl in Hmem |- *.
    cbn [add_installation_loop]. rewrite Hen. simpl.
    by rewrite (bind_Raise _ _ _ _ _ (add_remote_corrupt bad inst s1 Hfile Hmem)). }
  by rewrite Hrun.
Qed.

Lemma parse_failure_stops_add_installation_witness :
  add_installation Fixtures.system_broken init
  = (Raise (GLibError (appstream_file_path Fixtures.broken)),
     extended Fixtures.system_broken
       (snd (add_installation_loop [Fixtures.flathub]
               Fixtures.system_broken init))) /\
  dict_keys (remotes (snd (add_installation Fixtures.system_broken init)))
  = ["flathub"].
Proof.
  destruct (parse_failure_stops_add_installation Fixtures.system_broken
              [Fixtures.flathub] [Fixtures.beta] Fixtures.broken init
              eq_refl eq_refl eq_refl eq_refl eq_refl) as (Hrun & HR & _).
  split; [exact Hrun|]. rewrite HR. vm_compute. reflexivity.
Defined.

(** ** A missing catalogue *)

Lemma dict_get_snoc_eq {V} (k : string) (v : V) (d : list (string * V)) :
  dict_get d k = None -> dict_get (d ++ [(k, v)]) k = Some v.
Proof.
  intros Hk. rewrite (dict_get_app_None k d _ Hk). simpl.
  by rewrite String.eqb_refl.
Qed.

Lemma dict_get_snoc_ne {V} (k k' : string) (v : V) (d : list (string * V)) :
  k <> k' -> dict_get (d ++ [(k', v)]) k = dict_get d k.
Proof.
  intros Hne. destruct (dict_get d k) as [w|] eqn:Hk.
  - by apply dict_get_app_Some.
  - rewrite (dict_get_app_None k d _ Hk). simpl.
    by destruct (String.eqb_spec k k').
Qed.

Lemma eligible_installed_twice (i refs : list string) (c : Component) :
  eligible ((i ++ refs) ++ refs) c = eligible (i ++ refs) c.
Proof.
  unfold eligible, Str.str_in. destruct (get_bundle c) as [b|]; [|done].
  rewrite !existsb_app. by destruct (existsb _ i), (existsb _ refs).
Qed.

Lemma components_at_new (s : State) (h new : list AppStreamPackage) :
  heap s = h ++ new ->
  components_at s (seq (length h) (length new)) = map component new.
Proof.
  unfold components_at. intros Hh. rewrite Hh. clear Hh. revert h.
  induction new as [|p new IH]; intros h; [done|].
  cbn [length seq omap list_omap map].
  rewrite list_lookup_middle by done. simpl. f_equal.
  specialize (IH (h ++ [p])).
  by rewrite <- app_assoc, length_app, Nat.add_1_r in IH.
Qed.

(** C7. When the metadata cache directory of a repository holds no file
    [appstream.xml.gz], loading the repository returns the empty list and
    does not raise; one debug record is logged.  A sibling repository with
    a readable catalogue is loaded in the same call of [add_installation],
    whichever of the two is listed first: the index then maps the first
    name to the empty list and the sibling's name to the records of its
    catalogue. *)
Theorem missing_catalog_is_empty (r sib : Remote) (cs : list Component)
    (inst : Installation) (s : State) :
  appstream_xml_gz r = Missing ->
  get_disabled r = false ->
  appstream_xml_gz sib = Catalog cs ->
  Forall well_formed_component cs ->
  get_disabled sib = false ->
  remote_get_name r <> remote_get_name sib ->
  dict_mem (remote_get_name r) (remotes s) = false ->
  dict_mem (remote_get_name sib) (remotes s) = false ->
  list_remotes inst = [r; sib] \/ list_remotes inst = [sib; r] ->
  _load_appstream_metadata r s = (Ok [], logged_missing r s) /\
  fst (add_installation inst s) = Ok tt /\
  dict_get (remotes (snd (add_installation inst s))) (remote_get_name r)
  = Some [] /\
  log (snd (add_installation inst s))
  = log s ++ [debug_file_not_found (appstream_file_path r)] /\
  exists l,
    dict_get (remotes (snd (add_installation inst s))) (remote_get_name sib)
    = Some l /\
    components_at (snd (add_installation inst s)) l
    = List.filter (eligible (installed s ++ installed_app_refs inst)) cs.
Proof.
  intros Hmiss Hen Hcat Hwf Hen' Hne Hr Hsib Horder.
  split; [by apply load_appstream_metadata_missing|].
  pose proof Hr as Hr0. pose proof Hsib as Hsib0.
  apply dict_mem_false in Hr0. apply dict_mem_false in Hsib0.
  unfold add_installation. destruct Horder as [-> | ->];
    cbn [add_installation_loop]; rewrite Hen, Hen'; simpl.
  - rewrite (bind_Ok _ _ _ _ _ (add_remote_missing r inst s Hmiss Hr)).
    set (s1 := registered _ _ _).
    assert (Hsib1 : dict_mem (remote_get_name sib) (remotes s1) = false).
    { apply dict_mem_false. simpl. by rewrite dict_get_snoc_ne. }
    destruct (add_remote_readable sib cs inst s1 Hcat Hwf Hsib1)
      as (new & Hrun & Hmap).
    rewrite (bind_Ok _ _ _ _ _ Hrun). simpl.
    split; [done|]. split; [|split; [done|]].
    + rewrite dict_get_snoc_ne by done. by apply dict_get_snoc_eq.
    + eexists. split.
      * apply dict_get_snoc_eq. by rewrite dict_get_snoc_ne.
      * rewrite (components_at_new _ (heap s) new) by done.
        rewrite Hmap. simpl. apply filter_ext. intros c.
        apply eligible_installed_twice.
  - destruct (add_remote_readable sib cs inst s Hcat Hwf Hsib)
      as (new & Hrun & Hmap).
    rewrite (bind_Ok _ _ _ _ _ Hrun).
    set (s1 := registered _ _ _).
    assert (Hr1 : dict_mem (remote_get_name r) (remotes s1) = false).
    { apply dict_mem_false. simpl. by rewrite dict_get_snoc_ne. }
    rewrite (bind_Ok _ _ _ _ _ (add_remote_missing r inst s1 Hmiss Hr1)).
    simpl. split; [done|]. split; [|split; [done|]].
    + apply dict_get_snoc_eq. by rewrite dict_get_snoc_ne.
    + eexists. split.
      * rewrite dict_get_snoc_ne by done. by apply dict_get_snoc_eq.
      * by rewrite (components_at_new _ (heap s) new).
Qed.

Lemma missing_catalog_is_empty_witness :
  appstream_xml_gz Fixtures.fedora = Missing /\
  _load_appstream_metadata Fixtures.fedora init
  = (Ok [], logged_missing Fixtures.fedora init) /\
  fst (add_installation Fixtures.fedora_and_flathub init) = Ok tt /\
  dict_get (remotes (snd (add_installation Fixtures.fedora_and_flathub init)))
           "fedora" = Some [] /\
  dict_get (remotes (snd (add_installation Fixtures.fedora_and_flathub init)))
           "flathub" = Some [0; 1].
Proof.
  assert (Hwf : Forall well_formed_component
                  [Fixtures.lutris; Fixtures.firefox; Fixtures.platform;
                   Fixtures.chess]).
  { repeat constructor; intros Hkind; try discriminate; by eexists. }
  destruct (missing_catalog_is_empty Fixtures.fedora Fixtures.flathub
              [Fixtures.lutris; Fixtures.firefox; Fixtures.platform;
               Fixtures.chess]
              Fixtures.fedora_and_flathub init
              eq_refl eq_refl eq_refl Hwf eq_refl ltac:(discriminate)
              eq_refl eq_refl (or_introl eq_refl))
    as (Hload & Hok & Hfedora & _ & _).
  split; [reflexivity | split; [exact Hload | split; [exact Hok | split]]].
  - exact Hfedora.
  - vm_compute. reflexivity.
Defined.

(** ** Exclusion of installed bundles *)

Lemma keeps_refl (s : State) : keeps s s.
Proof. split; [done|]. intros a p Hp. by exists p. Qed.

Lemma keeps_trans (s1 s2 s3 : State) :
  keeps s1 s2 -> keeps s2 s3 -> keeps s1 s3.
Proof.
  intros [Hd1 Hh1] [Hd2 Hh2]. split.
  - intros n l Hn. by apply Hd2, Hd1.
  - intros a p Hp. destruct (Hh1 a p Hp) as (p' & Hp' & Hb').
    destruct (Hh2 a p' Hp') as (p'' & Hp'' & Hb'').
    exists p''. split; [done | congruence].
Qed.

Lemma keeps_searched (kw : string) (l : list addr) (s : State) :
  keeps s (searched kw l s).
Proof.
  split; [done|]. intros a p Hp. exists (after_search kw l a p). simpl.
  by rewrite list_lookup_imap, Hp, after_search_bundle.
Qed.

Lemma keeps_heap_app (s s' : State) (new : list AppStreamPackage) :
  heap s' = heap s ++ new ->
  (forall n l, dict_get (remotes s) n = Some l ->
               dict_get (remotes s') n = Some l) ->
  keeps s s'.
Proof.
  intros HH HR. split; [done|]. intros a p Hp. exists p.
  split; [|done]. rewrite HH. by apply lookup_app_l_Some.
Qed.

Lemma keeps_add_remote (r : Remote) (inst : Installation) (s : State) :
  keeps s (snd (add_remote r inst s)).
Proof.
  destruct (dict_mem (remote_get_name r) (remotes s)) eqn:Hmem.
  - rewrite (add_remote_known r inst s Hmem). simpl.
    apply (keeps_heap_app _ _ []); [by rewrite app_nil_r | done].
  - destruct (add_remote_new_spec r inst s Hmem)
      as (new & _ & HH & _ & [[_ HR]|[_ HR]]);
      apply (keeps_heap_app _ _ new HH); rewrite HR; [|done].
    intros n l. apply dict_get_app_Some.
Qed.

Lemma keeps_add_installation_loop (rs : list Remote) (inst : Installation) :
  forall s, keeps s (snd (add_installation_loop rs inst s)).
Proof.
  induction rs as [|r rs IH]; intros s; [apply keeps_refl|].
  cbn [add_installation_loop]. unfold bind.
  destruct (get_disabled r); simpl; [apply IH|].
  pose proof (keeps_add_remote r inst s) as Hk.
  destruct (add_remote r inst s) as [[[]|e] s1]; simpl in *; [|done].
  eapply keeps_trans; [exact Hk | apply IH].
Qed.

Lemma keeps_run_call (c : Call) (s : State) : wf s -> keeps s (run_call c s).
Proof.
  intros Hwf. destruct c as [inst|r inst|kw repo|kw n]; simpl.
  - apply keeps_add_installation_loop.
  - apply keeps_add_remote.
  - rewrite search_flatpak_state by done. apply keeps_searched.
  - rewrite search_flatpak_repo_state by done. apply keeps_searched.
Qed.

Lemma keeps_run_session (calls : list Call) :
  forall s, wf s -> keeps s (run_session calls s).
Proof.
  induction calls as [|c calls IH]; intros s Hwf; [apply keeps_refl|].
  simpl. eapply keeps_trans; [by apply keeps_run_call|].
  apply IH. by apply wf_run_call.
Qed.

(** C1. When a repository is loaded, no record is constructed for a
    component whose flatpak bundle is in the installed list of that moment:
    every object the load creates, and so every record it stores in the
    index, has a bundle that is not in [self.installed] as it was during
    the load.  The stored records keep that property whatever calls follow
    in the session. *)
Theorem exclusion_at_load (r : Remote) (inst : Installation) (s : State)
    (calls : list Call) :
  reachable s ->
  dict_mem (remote_get_name r) (remotes s) = false ->
  let at_load := installed s ++ installed_app_refs inst in
  let s1 := snd (add_remote r inst s) in
  let s2 := run_session calls s1 in
  installed s1 = at_load /\
  (forall a p, heap s1 !! a = Some p -> length (heap s) <= a ->
               flatpak_bundle p ∉ at_load) /\
  (fst (add_remote r inst s) = Ok tt ->
   exists l,
     dict_get (remotes s1) (remote_get_name r) = Some l /\
     dict_get (remotes s2) (remote_get_name r) = Some l /\
     Forall (fun a => exists p, heap s2 !! a = Some p
                                /\ flatpak_bundle p ∉ at_load) l).
Proof.
  intros Hreach Hmem at_load s1 s2.
  pose proof (reachable_wf s Hreach) as Hwf.
  pose proof (wf_add_remote r inst s Hwf) as Hwf1. fold s1 in Hwf1.
  destruct (keeps_run_session calls s1 Hwf1) as [Hkd Hkh]. fold s2 in Hkd, Hkh.
  destruct (add_remote_new_spec r inst s Hmem)
    as (new & HI & HH & Hfresh & Hcase).
  fold s1 in HI, HH, Hcase. rewrite Forall_forall in Hfresh.
  assert (Hnew : forall a p, heap s1 !! a = Some p -> length (heap s) <= a ->
                             flatpak_bundle p ∉ at_load).
  { intros a p Hp Hle. rewrite HH, lookup_app_r in Hp by done.
    apply list_elem_of_lookup_2 in Hp. by destruct (Hfresh p Hp) as (_ & Hb & _). }
  split; [done|]. split; [done|]. intros Hok.
  destruct Hcase as [[_ HR]|[[e He] _]]; [|congruence].
  exists (seq (length (heap s)) (length new)).
  assert (Hl : dict_get (remotes s1) (remote_get_name r)
               = Some (seq (length (heap s)) (length new))).
  { rewrite HR. apply dict_get_snoc_eq. by apply dict_mem_false. }
  split; [done|]. split; [by apply Hkd|].
  apply Forall_forall. intros a Ha. apply elem_of_seq in Ha.
  destruct (lookup_lt_is_Some_2 (heap s1) a) as [p Hp].
  { rewrite HH, length_app. lia. }
  destruct (Hkh a p Hp) as (p' & Hp' & Hb).
  exists p'. split; [done|]. rewrite Hb. apply (Hnew a p Hp). lia.
Qed.

Lemma exclusion_at_load_witness :
  reachable init /\
  dict_mem (remote_get_name Fixtures.flathub) (remotes init) = false /\
  installed Fixtures.once = ["app/org.mozilla.firefox/x86_64/stable"] /\
  exists l,
    dict_get (remotes (run_session
                         [call_search_flatpak "fire" None;
                          call_add_installation Fixtures.system]
                         Fixtures.once)) "flathub" = Some l /\
    Forall (fun a =>
              exists p,
                heap (run_session
                        [call_search_flatpak "fire" None;
                         call_add_installation Fixtures.system]
                        Fixtures.once) !! a = Some p
                /\ flatpak_bundle p
                   ∉ ["app/org.mozilla.firefox/x86_64/stable"]) l.
Proof.
  destruct (exclusion_at_load Fixtures.flathub Fixtures.system init
              [call_search_flatpak "fire" None;
               call_add_installation Fixtures.system]
              reachable_init eq_refl) as (Hinst & _ & Hstored).
  destruct (Hstored eq_refl) as (l & _ & Hl & Hall).
  split; [exact reachable_init | split; [reflexivity | split]].
  - exact Hinst.
  - exists l. split; [exact Hl | exact Hall].
Defined.

(** * Further properties of the program *)

(** ** Keywords *)

Lemma str_app_assoc (a b c : string) :
  ((a ++ b) ++ c = a ++ (b ++ c))%string.
Proof. induction a as [|x a IH]; [done | exact (f_equal (String x) IH)]. Qed.

Lemma str_app_length (a b : string) :
  String.length (a ++ b)%string = String.length a + String.length b.
Proof. induction a as [|x a IH]; [done | exact (f_equal S IH)]. Qed.

Lemma lower_app (a b : string) :
  Str.lower (a ++ b)%string = (Str.lower a ++ Str.lower b)%string.
Proof.
  induction a as [|x a IH]; [done|].
  exact (f_equal (String (Str.lower_ascii x)) IH).
Qed.

Lemma lower_length (a : string) :
  String.length (Str.lower a) = String.length a.
Proof. induction a as [|x a IH]; simpl; [done | by rewrite IH]. Qed.

Lemma lower_lower (a : string) : Str.lower (Str.lower a) = Str.lower a.
Proof.
  induction a as [|x a IH]; simpl; [done|].
  by rewrite lower_lower_ascii, IH.
Qed.

Lemma Substring_lower (k1 k2 : string) :
  Str.Substring k1 k2 -> Str.Substring (Str.lower k1) (Str.lower k2).
Proof.
  intros (pre & post & ->). exists (Str.lower pre), (Str.lower post).
  by rewrite !lower_app.
Qed.

Lemma Substring_trans (k1 k2 k3 : string) :
  Str.Substring k1 k2 -> Str.Substring k2 k3 -> Str.Substring k1 k3.
Proof.
  intros (pre1 & post1 & ->) (pre2 & post2 & ->).
  exists (pre2 ++ pre1)%string, (post1 ++ post2)%string.
  by rewrite !str_app_assoc.
Qed.

Lemma Substring_length (kw s : string) :
  Str.Substring kw s -> String.length kw <= String.length s.
Proof. intros (pre & post & ->). rewrite !str_app_length. lia. Qed.

Lemma contains_empty (s : string) : Str.contains "" s = true.
Proof. by destruct s. Qed.

(** The classification is not NONE exactly when the keyword occurs in one
    of the three lower-cased fields. *)
Lemma search_hit_iff (p : AppStreamPackage) (kw : string) :
  search p kw <> NONE <->
  Str.Substring kw (Str.lower (name p)) \/
  Str.Substring kw (Str.lower (id p)) \/
  Str.Substring kw (Str.lower (summary p)).
Proof.
  rewrite <- !contains_spec. unfold search.
  destruct (Str.contains kw (Str.lower (name p)));
    destruct (Str.contains kw (Str.lower (id p)));
    destruct (Str.contains kw (Str.lower (summary p)));
    split; intros H; try done; try tauto; by destruct H as [?|[?|?]].
Qed.

Lemma hit_Some (h : list AppStreamPackage) (kw : string) (a : addr)
    (p : AppStreamPackage) :
  h !! a = Some p -> (hit h kw a = true <-> search p kw <> NONE).
Proof.
  intros Hp. unfold hit, found_at. rewrite Hp. apply Match_eqb_NONE.
Qed.

(** The list a public search returns, when it returns. *)
Lemma search_flatpak_result (s : State) (kw : string) (repo : option string)
    (res : list addr) :
  wf s ->
  fst (search_flatpak kw repo s) = Ok res ->
  res = hits (heap s) (Str.lower kw) (scanned s repo).
Proof.
  intros Hwf Hres. unfold scanned. destruct (truthy repo) eqn:Hrepo.
  - rewrite (search_flatpak_scoped kw repo s Hrepo) in Hres.
    destruct (dict_get (remotes s) (default "" repo)) as [l|] eqn:Hl.
    + rewrite (search_flatpak_repo_known _ _ l s Hl) in Hres.
      * simpl in Hres. by injection Hres as <-.
      * apply (stored_ok_live s (default "" repo)). by apply wf_dict_get.
    + by rewrite (search_flatpak_repo_unknown _ _ s Hl) in Hres.
  - rewrite (search_flatpak_global kw repo s Hwf Hrepo) in Hres.
    simpl in Hres. injection Hres as <-. apply concat_hits.
Qed.

Lemma scanned_live (s : State) (repo : option string) :
  wf s -> live (heap s) (scanned s repo).
Proof.
  intros Hwf. unfold scanned. destruct (truthy repo).
  - destruct (dict_get (remotes s) (default "" repo)) as [l|] eqn:Hl;
      [|constructor].
    apply (stored_ok_live s (default "" repo)). by apply wf_dict_get.
  - apply Forall_forall. intros a Ha.
    apply elem_of_all_packages in Ha as (n & l & Hin & Ha).
    destruct Hwf as (_ & _ & Hall). rewrite Forall_forall in Hall.
    specialize (Hall _ Hin). rewrite Forall_forall in Hall.
    destruct (Hall a Ha) as (p & Hp & _). by exists p.
Qed.

(** X1. A record is returned by the public search exactly when it is in
    the scanned scope and the lower-cased keyword occurs in its lower-cased
    name, id or summary. *)
Theorem search_flatpak_returns_iff (s : State) (keyword : string)
    (repo : option string) (res : list addr) (a : addr) :
  reachable s ->
  fst (search_flatpak keyword repo s) = Ok res ->
  a ∈ res <->
  a ∈ scanned s repo /\
  exists p,
    heap s !! a = Some p /\
    (Str.Substring (Str.lower keyword) (Str.lower (name p)) \/
     Str.Substring (Str.lower keyword) (Str.lower (id p)) \/
     Str.Substring (Str.lower keyword) (Str.lower (summary p))).
Proof.
  intros Hreach Hres. pose proof (reachable_wf s Hreach) as Hwf.
  rewrite (search_flatpak_result s keyword repo res Hwf Hres), elem_of_hits.
  pose proof (scanned_live s repo Hwf) as Hlive.
  unfold live in Hlive. rewrite Forall_forall in Hlive. split.
  - intros [Hin Hhit]. split; [done|]. destruct (Hlive a Hin) as [p Hp].
    exists p. split; [done|]. apply search_hit_iff.
    by apply (hit_Some (heap s) (Str.lower keyword) a p Hp).
  - intros [Hin (p & Hp & Hsub)]. split; [done|].
    apply (hit_Some _ _ a p Hp). by apply search_hit_iff.
Qed.

Lemma search_flatpak_returns_iff_witness :
  reachable Fixtures.session /\
  fst (search_flatpak "Chess" None Fixtures.session) = Ok [1] /\
  (1 ∈ [1] <->
   1 ∈ scanned Fixtures.session None /\
   exists p,
     heap Fixtures.session !! 1 = Some p /\
     (Str.Substring (Str.lower "Chess") (Str.lower (name p)) \/
      Str.Substring (Str.lower "Chess") (Str.lower (id p)) \/
      Str.Substring (Str.lower "Chess") (Str.lower (summary p)))).
Proof.
  split; [exact reachable_session | split; [by vm_compute |]].
  exact (search_flatpak_returns_iff Fixtures.session "Chess" None [1] 1
           reachable_session eq_refl).
Defined.

(** X2. The empty keyword matches every record by name: the public search
    with the keyword [""] and no repository name returns every stored
    record and classifies each of them NAME. *)
Theorem search_empty_keyword (s : State) :
  reachable s ->
  (forall p, search p "" = NAME) /\
  fst (search_flatpak "" None s) = Ok (all_packages s) /\
  (forall a, a ∈ all_packages s ->
             pkg_match <$> heap (snd (search_flatpak "" None s)) !! a
             = Some NAME).
Proof.
  intros Hreach. pose proof (reachable_wf s Hreach) as Hwf.
  assert (Hname : forall p, search p "" = NAME)
    by (intros p; unfold search; by rewrite contains_empty).
  pose proof (scanned_live s None Hwf) as Hlive. change (scanned s None)
    with (all_packages s) in Hlive.
  assert (Hall : hits (heap s) "" (all_packages s) = all_packages s).
  { unfold hits. unfold live in Hlive. induction Hlive as [|a l [p Hp] _ IH];
      [done|].
    simpl. rewrite IH. unfold hit, found_at. by rewrite Hp, Hname. }
  split; [done|]. rewrite (search_flatpak_global "" None s Hwf eq_refl).
  change (Str.lower "") with "". rewrite concat_hits.
  fold (all_packages s). rewrite Hall.
  cbn [fst snd searched heap]. split; [done|].
  intros a Ha. unfold live in Hlive. rewrite Forall_forall in Hlive.
  destruct (Hlive a Ha) as [p Hp]. rewrite list_lookup_imap, Hp. simpl.
  unfold after_search. by rewrite (bool_decide_eq_true_2 _ Ha), Hname.
Qed.

Lemma search_empty_keyword_witness :
  reachable Fixtures.session /\
  fst (search_flatpak "" None Fixtures.session) = Ok [0; 1; 2].
Proof.
  destruct (search_empty_keyword Fixtures.session reachable_session)
    as (_ & Hall & _).
  split; [exact reachable_session | exact Hall].
Defined.

Lemma lower_ascii_not_upper (c : ascii) : is_upper (Str.lower_ascii c) = false.
Proof. by destruct c as [[] [] [] [] [] [] [] []]. Qed.

Lemma has_upper_lower (s : string) : has_upper (Str.lower s) = false.
Proof.
  induction s as [|c s IH]; [done|].
  simpl. by rewrite lower_ascii_not_upper, IH.
Qed.

Lemma has_upper_app (a b : string) :
  has_upper (a ++ b)%string = has_upper a || has_upper b.
Proof.
  induction a as [|c a IH]; [done|].
  change (has_upper (String c (a ++ b)%string)
          = (is_upper c || has_upper a) || has_upper b).
  simpl. by rewrite IH, orb_assoc.
Qed.

Lemma has_upper_Substring (kw s : string) :
  Str.Substring kw s -> has_upper kw = true -> has_upper s = true.
Proof.
  intros (pre & post & ->) Hkw. rewrite !has_upper_app, Hkw.
  by rewrite orb_true_r.
Qed.

Lemma contains_upper (kw s : string) :
  has_upper kw = true -> Str.contains kw (Str.lower s) = false.
Proof.
  intros Hkw. apply contains_false_spec. intros Hsub.
  pose proof (has_upper_Substring _ _ Hsub Hkw) as Hup.
  by rewrite has_upper_lower in Hup.
Qed.

Lemma searched_no_hit (kw : string) (l : list addr) (s : State) :
  (forall p, search p kw = NONE) -> searched kw l s = s /\ hits (heap s) kw l = [].
Proof.
  intros Hnone.
  assert (Hhits : hits (heap s) kw l = []).
  { unfold hits. induction l as [|a l IH]; [done|]. simpl. rewrite IH.
    unfold hit, found_at. destruct (heap s !! a); by rewrite ?Hnone. }
  split; [|done]. unfold searched. rewrite Hhits. simpl.
  apply State_eq; simpl; try done; [|by rewrite app_nil_r].
  apply list_eq. intros i. rewrite list_lookup_imap.
  destruct (heap s !! i) as [p|]; [|done]. simpl. f_equal.
  unfold after_search. by rewrite Hnone, andb_false_r.
Qed.

(** X3. [AppStreamPackage.search] and [search_flatpak_repo] do not
    lower-case the keyword: a keyword that has an upper-case ASCII letter
    matches no record.  [search_flatpak_repo] then returns the empty list
    for a known repository and changes nothing. *)
Theorem search_upper_case_keyword (keyword : string) :
  has_upper keyword = true ->
  (forall p, search p keyword = NONE) /\
  (forall s n,
     reachable s ->
     dict_mem n (remotes s) = true ->
     search_flatpak_repo keyword n s = (Ok [], s)).
Proof.
  intros Hup.
  assert (Hnone : forall p, search p keyword = NONE)
    by (intros p; unfold search; by rewrite !contains_upper).
  split; [done|]. intros s n Hreach Hmem.
  pose proof (reachable_wf s Hreach) as Hwf.
  apply dict_mem_true in Hmem as [l Hl].
  rewrite (search_flatpak_repo_known keyword n l s Hl).
  - by destruct (searched_no_hit keyword l s Hnone) as [-> ->].
  - apply (stored_ok_live s n). by apply wf_dict_get.
Qed.

Lemma search_upper_case_keyword_witness :
  has_upper "Lutris" = true /\
  search Fixtures.lutris_package "Lutris" = NONE /\
  search_flatpak_repo "Lutris" "flathub" Fixtures.session
  = (Ok [], Fixtures.session) /\
  fst (search_flatpak "Lutris" (Some "flathub") Fixtures.session) = Ok [0].
Proof.
  destruct (search_upper_case_keyword "Lutris" eq_refl) as [Hnone Hrepo].
  split; [reflexivity | split; [apply Hnone | split]].
  - apply Hrepo; [exact reachable_session | reflexivity].
  - vm_compute. reflexivity.
Defined.

Lemma search_narrow (p : AppStreamPackage) (k1 k2 : string) :
  Str.Substring k1 k2 ->
  Match_value (search p k1) <= Match_value (search p k2).
Proof.
  intros Hsub.
  assert (Hmono : forall f, Str.contains k2 f = true -> Str.contains k1 f = true).
  { intros f Hf. apply contains_spec. apply contains_spec in Hf.
    by apply (Substring_trans k1 k2 f). }
  unfold search.
  pose proof (Hmono (Str.lower (name p))) as Hn.
  pose proof (Hmono (Str.lower (id p))) as Hi.
  pose proof (Hmono (Str.lower (summary p))) as Hs.
  destruct (Str.contains k2 (Str.lower (name p)));
    destruct (Str.contains k1 (Str.lower (name p)));
    destruct (Str.contains k2 (Str.lower (id p)));
    destruct (Str.contains k1 (Str.lower (id p)));
    destruct (Str.contains k2 (Str.lower (summary p)));
    destruct (Str.contains k1 (Str.lower (summary p)));
    simpl; try lia;
    try (by specialize (Hn eq_refl));
    try (by specialize (Hi eq_refl));
    by specialize (Hs eq_refl).
Qed.

Lemma hits_sublist (h : list AppStreamPackage) (k1 k2 : string)
    (l : list addr) :
  (forall a, hit h k2 a = true -> hit h k1 a = true) ->
  hits h k2 l `sublist_of` hits h k1 l.
Proof.
  intros Himp. unfold hits. induction l as [|a l IH]; [constructor|].
  simpl. specialize (Himp a).
  destruct (hit h k2 a); [rewrite Himp by done; by constructor|].
  destruct (hit h k1 a); [by constructor | done].
Qed.

(** X4. Shortening an ASCII keyword never loses a result: when [k2] is an
    ASCII string and [k1] is a substring of it, every record the public
    search returns for [k2] is returned for [k1] too, in the same relative
    order, and no record is classified worse for [k1] than for [k2] (NAME
    before ID before SUMMARY before NONE). *)
Theorem search_shorter_keyword (s : State) (k1 k2 : string)
    (repo : option string) (r1 r2 : list addr) :
  reachable s ->
  is_ascii k2 = true ->
  Str.Substring k1 k2 ->
  fst (search_flatpak k1 repo s) = Ok r1 ->
  fst (search_flatpak k2 repo s) = Ok r2 ->
  r2 `sublist_of` r1 /\
  (forall p, Match_value (search p (Str.lower k1))
             <= Match_value (search p (Str.lower k2))).
Proof.
  intros Hreach _ Hsub H1 H2. pose proof (reachable_wf s Hreach) as Hwf.
  apply Substring_lower in Hsub.
  rewrite (search_flatpak_result s k1 repo r1 Hwf H1).
  rewrite (search_flatpak_result s k2 repo r2 Hwf H2).
  split; [|intros p; by apply search_narrow].
  apply hits_sublist. intros a. unfold hit, found_at.
  destruct (heap s !! a) as [p|]; [|done].
  rewrite !Match_eqb_NONE. intros Hk2 Hk1.
  pose proof (search_narrow p _ _ Hsub) as Hle.
  rewrite Hk1 in Hle. destruct (search p (Str.lower k2)); simpl in Hle; try lia.
  done.
Qed.

Lemma search_shorter_keyword_witness :
  reachable Fixtures.session /\
  is_ascii "Games" = true /\
  Str.Substring "Game" "Games" /\
  fst (search_flatpak "Game" None Fixtures.session) = Ok [0; 1; 2] /\
  fst (search_flatpak "Games" None Fixtures.session) = Ok [0; 2] /\
  [0; 2] `sublist_of` [0; 1; 2].
Proof.
  assert (Hsub : Str.Substring "Game" "Games")
    by (exists "", "s"; reflexivity).
  destruct (search_shorter_keyword Fixtures.session "Game" "Games" None
              [0; 1; 2] [0; 2] reachable_session eq_refl Hsub eq_refl eq_refl)
    as [Hsl _].
  split; [exact reachable_session | split; [reflexivity | split; [exact Hsub |]]].
  split; [by vm_compute | split; [by vm_compute | exact Hsl]].
Defined.

Lemma py_len_le (s : string) : py_len s <= String.length s.
Proof.
  induction s as [|c s IH]; [done|].
  simpl. destruct (is_continuation c); lia.
Qed.

(** X5. For a record whose name, id and summary are ASCII strings, a
    keyword that has more characters than each of the three does not
    match. *)
Theorem search_long_keyword (p : AppStreamPackage) (keyword : string) :
  is_ascii (name p) = true ->
  is_ascii (id p) = true ->
  is_ascii (summary p) = true ->
  String.length (name p) < py_len keyword ->
  String.length (id p) < py_len keyword ->
  String.length (summary p) < py_len keyword ->
  search p keyword = NONE.
Proof.
  intros _ _ _ Hn Hi Hs. pose proof (py_len_le keyword) as Hle.
  assert (Hshort : forall f, String.length f < py_len keyword ->
                             Str.contains keyword (Str.lower f) = false).
  { intros f Hf. apply contains_false_spec. intros Hsub.
    apply Substring_length in Hsub. rewrite lower_length in Hsub. lia. }
  unfold search. by rewrite !Hshort.
Qed.

Lemma search_long_keyword_witness :
  is_ascii (name Fixtures.lutris_package) = true /\
  is_ascii (id Fixtures.lutris_package) = true /\
  is_ascii (summary Fixtures.lutris_package) = true /\
  search Fixtures.lutris_package "an application keyword" = NONE.
Proof.
  repeat (split; [reflexivity|]).
  apply search_long_keyword; try reflexivity; simpl; lia.
Defined.

(** ** What a search changes *)

Lemma after_search_ext (h : list AppStreamPackage) (kw : string)
    (l l' : list addr) :
  (forall a, a ∈ l <-> a ∈ l') ->
  imap (after_search kw l) h = imap (after_search kw l') h.
Proof.
  intros Hiff. apply list_eq. intros i. rewrite !list_lookup_imap.
  destruct (h !! i) as [p|]; [|done]. simpl. f_equal. unfold after_search.
  by rewrite (bool_decide_ext _ _ (Hiff i)).
Qed.

Lemma same_record_after_search (kw : string) (l : list addr) (a : addr)
    (p : AppStreamPackage) :
  same_record p (after_search kw l a p).
Proof. unfold same_record, after_search. by destruct (_ && _). Qed.

Lemma search_flatpak_fst (s : State) (kw : string) (repo : option string) :
  wf s ->
  fst (search_flatpak kw repo s)
  = if truthy repo && negb (dict_mem (default "" repo) (remotes s))
    then Raise (KeyError (default "" repo))
    else Ok (hits (heap s) (Str.lower kw) (scanned s repo)).
Proof.
  intros Hwf. unfold scanned, dict_mem. destruct (truthy repo) eqn:Hrepo.
  - rewrite (search_flatpak_scoped kw repo s Hrepo).
    destruct (dict_get (remotes s) (default "" repo)) as [l|] eqn:Hl; simpl.
    + rewrite (search_flatpak_repo_known _ _ l s Hl); [done|].
      apply (stored_ok_live s (default "" repo)). by apply wf_dict_get.
    + by rewrite (search_flatpak_repo_unknown _ _ s Hl).
  - rewrite (search_flatpak_global kw repo s Hwf Hrepo). simpl.
    by rewrite concat_hits.
Qed.

(** X6. Repeating a public search gives the same answer: the second call
    with the same keyword and scope returns the same list, or raises the
    same error, as the first, and changes no record. *)
Theorem search_flatpak_repeated (s : State) (keyword : string)
    (repo : option string) :
  reachable s ->
  let s1 := snd (search_flatpak keyword repo s) in
  fst (search_flatpak keyword repo s1) = fst (search_flatpak keyword repo s) /\
  heap (snd (search_flatpak keyword repo s1)) = heap s1 /\
  remotes (snd (search_flatpak keyword repo s1)) = remotes s.
Proof.
  intros Hreach s1. pose proof (reachable_wf s Hreach) as Hwf.
  assert (Hs1 : s1 = searched (Str.lower keyword) (scanned s repo) s)
    by apply (search_flatpak_state keyword repo s Hwf).
  assert (Hwf1 : wf s1) by (rewrite Hs1; by apply wf_searched).
  split; [|split].
  - rewrite !search_flatpak_fst by done. rewrite Hs1, scanned_searched.
    simpl. by rewrite hits_searched.
  - rewrite (search_flatpak_state keyword repo s1 Hwf1).
    rewrite Hs1, scanned_searched, searched_app. simpl.
    apply after_search_ext. intros a. rewrite elem_of_app. tauto.
  - rewrite (search_flatpak_state keyword repo s1 Hwf1). by rewrite Hs1.
Qed.

Lemma search_flatpak_repeated_witness :
  reachable Fixtures.session /\
  fst (search_flatpak "game" None
         (snd (search_flatpak "game" None Fixtures.session)))
  = Ok [0; 1; 2].
Proof.
  destruct (search_flatpak_repeated Fixtures.session "game" None
              reachable_session) as (Hfst & _).
  split; [exact reachable_session|]. rewrite Hfst. by vm_compute.
Defined.

(** X7. A public search, whether it returns or raises, leaves the index and
    the installed list as they were, creates and removes no object, changes
    no field of an object other than [match], and only appends to the
    log. *)
Theorem search_flatpak_frame (s : State) (keyword : string)
    (repo : option string) :
  reachable s ->
  let s' := snd (search_flatpak keyword repo s) in
  remotes s' = remotes s /\
  installed s' = installed s /\
  length (heap s') = length (heap s) /\
  (forall a p, heap s !! a = Some p ->
               exists p', heap s' !! a = Some p' /\ same_record p p') /\
  log s `prefix_of` log s'.
Proof.
  intros Hreach s'. pose proof (reachable_wf s Hreach) as Hwf.
  subst s'. rewrite (search_flatpak_state keyword repo s Hwf). simpl.
  split; [done|]. split; [done|]. split; [apply length_imap|]. split.
  - intros a p Hp. eexists. rewrite list_lookup_imap, Hp. simpl.
    split; [done | apply same_record_after_search].
  - by eexists.
Qed.

Lemma search_flatpak_frame_witness :
  reachable Fixtures.session /\
  remotes (snd (search_flatpak "game" None Fixtures.session))
  = remotes Fixtures.session /\
  length (heap (snd (search_flatpak "game" None Fixtures.session))) = 3.
Proof.
  destruct (search_flatpak_frame Fixtures.session "game" None
              reachable_session) as (HR & _ & HL & _).
  split; [exact reachable_session | split; [exact HR | exact HL]].
Defined.

(** ** The index over a session *)

(** X8. In every state of a session a record belongs to one repository
    only: an address stored in the index occurs in the list of one
    repository name, once, it refers to an object of the heap, and the
    [repo_name] of that object is that repository name. *)
Theorem record_ownership (s : State) (n1 n2 : string) (l1 l2 : list addr)
    (a : addr) :
  reachable s ->
  (n1, l1) ∈ remotes s -> a ∈ l1 ->
  (n2, l2) ∈ remotes s -> a ∈ l2 ->
  n1 = n2 /\ l1 = l2 /\ NoDup l1 /\
  dict_get (remotes s) n1 = Some l1 /\
  exists p, heap s !! a = Some p /\ repo_name p = n1.
Proof.
  intros Hreach H1 Ha1 H2 Ha2.
  destruct (reachable_wf s Hreach) as (Hkeys & Hnd & Hall).
  rewrite Forall_forall in Hall.
  pose proof (Hall _ H1) as Hok1. pose proof (Hall _ H2) as Hok2.
  simpl in Hok1, Hok2. rewrite Forall_forall in Hok1, Hok2.
  destruct (Hok1 a Ha1) as (p & Hp & Hn1).
  destruct (Hok2 a Ha2) as (p2 & Hp2 & Hn2).
  assert (n1 = n2) as <- by congruence.
  pose proof (dict_get_NoDup n1 l1 _ Hkeys H1) as Hg1.
  pose proof (dict_get_NoDup n1 l2 _ Hkeys H2) as Hg2.
  assert (l1 = l2) as <- by congruence.
  repeat split; try done; [|by exists p].
  unfold all_packages in Hnd. clear -Hnd H1.
  induction (remotes s) as [|e d IH]; [by apply elem_of_nil in H1|].
  simpl in Hnd. apply NoDup_app in Hnd as (Hnd1 & _ & Hnd2).
  apply elem_of_cons in H1 as [<-|Hin]; [done | by apply IH].
Qed.

Lemma record_ownership_witness :
  reachable Fixtures.session /\
  dict_get (remotes Fixtures.session) "flathub" = Some [0; 1] /\
  exists p, heap Fixtures.session !! 1 = Some p /\ repo_name p = "flathub".
Proof.
  assert (Hin : ("flathub", [0; 1]) ∈ remotes Fixtures.session)
    by (apply list_elem_of_further, list_elem_of_here).
  assert (Ha : 1 ∈ [0; 1]) by (apply list_elem_of_further, list_elem_of_here).
  destruct (record_ownership Fixtures.session "flathub" "flathub" [0; 1]
              [0; 1] 1 reachable_session Hin Ha Hin Ha)
    as (_ & _ & _ & Hget & Hp).
  split; [exact reachable_session | split; [exact Hget | exact Hp]].
Defined.

Lemma remotes_prefix_add_remote (r : Remote) (inst : Installation)
    (s : State) :
  remotes s `prefix_of` remotes (snd (add_remote r inst s)).
Proof.
  destruct (dict_mem (remote_get_name r) (remotes s)) eqn:Hmem.
  - by rewrite (add_remote_known r inst s Hmem).
  - destruct (add_remote_new_spec r inst s Hmem)
      as (new & _ & _ & _ & [[_ ->]|[_ ->]]); [by eexists | done].
Qed.

Lemma remotes_prefix_loop (rs : list Remote) (inst : Installation) :
  forall s, remotes s `prefix_of` remotes (snd (add_installation_loop rs inst s)).
Proof.
  induction rs as [|r rs IH]; intros s; [done|].
  cbn [add_installation_loop]. unfold bind.
  destruct (get_disabled r); simpl; [apply IH|].
  pose proof (remotes_prefix_add_remote r inst s) as Hp.
  destruct (add_remote r inst s) as [[[]|e] s1]; simpl in *; [|done].
  etrans; [exact Hp | apply IH].
Qed.

(** X9. The index only grows, and only at its end: whatever calls are made
    in a session, the entries the index had before are still there, in the
    same order and with the same record lists; no repository is removed,
    reloaded or moved. *)
Theorem index_grows_at_end (s : State) (calls : list Call) :
  reachable s ->
  remotes s `prefix_of` remotes (run_session calls s).
Proof.
  intros Hreach. pose proof (reachable_wf s Hreach) as Hwf. clear Hreach.
  revert s Hwf. induction calls as [|c calls IH]; intros s Hwf; [done|].
  simpl. etrans; [|apply IH; by apply wf_run_call].
  destruct c as [inst|r inst|kw repo|kw n]; simpl.
  - apply remotes_prefix_loop.
  - apply remotes_prefix_add_remote.
  - by rewrite search_flatpak_state.
  - by rewrite search_flatpak_repo_state.
Qed.

Lemma index_grows_at_end_witness :
  reachable Fixtures.once /\
  remotes Fixtures.once
  `prefix_of` remotes (run_session [call_search_flatpak "game" None;
                                    call_add_installation Fixtures.system]
                         Fixtures.once) /\
  remotes Fixtures.once = [("flathub", [0; 1])] /\
  remotes (run_session [call_search_flatpak "game" None;
                        call_add_installation Fixtures.system]
             Fixtures.once)
  = [("flathub", [0; 1]); ("fedora", []); ("flathub-beta", [2])].
Proof.
  assert (Hreach : reachable Fixtures.once)
    by apply (reachable_call (call_add_remote Fixtures.flathub Fixtures.system)),
             reachable_init.
  split; [exact Hreach | split; [| split; by vm_compute]].
  exact (index_grows_at_end Fixtures.once
           [call_search_flatpak "game" None;
            call_add_installation Fixtures.system] Hreach).
Defined.

(** ** add_installation *)

Lemma add_remote_refs (r : Remote) (inst inst' : Installation) (s : State) :
  installed_app_refs inst' = installed_app_refs inst ->
  add_remote r inst' s = add_remote r inst s.
Proof. intros Hrefs. unfold add_remote. by rewrite Hrefs. Qed.

Lemma add_installation_loop_refs (rs : list Remote)
    (inst inst' : Installation) :
  installed_app_refs inst' = installed_app_refs inst ->
  forall s, add_installation_loop rs inst' s = add_installation_loop rs inst s.
Proof.
  intros Hrefs. induction rs as [|r rs IH]; intros s; [done|].
  cbn [add_installation_loop]. unfold bind.
  destruct (get_disabled r); simpl; [apply IH|].
  rewrite (add_remote_refs r inst inst' s Hrefs).
  destruct (add_remote r inst s) as [[[]|e] s1]; [apply IH | done].
Qed.

Lemma add_installation_loop_enabled (rs : list Remote) (inst : Installation) :
  forall s,
  add_installation_loop (List.filter enabled rs) inst s
  = add_installation_loop rs inst s.
Proof.
  induction rs as [|r rs IH]; intros s; [done|].
  cbn [List.filter]. unfold enabled at 1.
  destruct (get_disabled r) eqn:Hdis; simpl negb; cbv iota;
    cbn [add_installation_loop]; rewrite Hdis; simpl negb; cbv iota;
    unfold bind.
  - unfold ret. apply IH.
  - destruct (add_remote r inst s) as [[[]|e] s1]; [apply IH | done].
Qed.

Lemma add_remote_index (r : Remote) (inst : Installation) (s : State) :
  remotes (snd (add_remote r inst s)) = remotes s \/
  exists l, remotes (snd (add_remote r inst s))
            = remotes s ++ [(remote_get_name r, l)].
Proof.
  destruct (dict_mem (remote_get_name r) (remotes s)) eqn:Hmem.
  - left. by rewrite (add_remote_known r inst s Hmem).
  - destruct (add_remote_new_spec r inst s Hmem)
      as (new & _ & _ & _ & [[_ ->]|[_ ->]]); [right; by eexists | by left].
Qed.

Lemma add_installation_loop_absent (rs : list Remote) (inst : Installation)
    (n : string) :
  (forall r, r ∈ rs -> remote_get_name r = n -> get_disabled r = true) ->
  forall s,
  dict_mem n (remotes s) = false ->
  dict_mem n (remotes (snd (add_installation_loop rs inst s))) = false.
Proof.
  induction rs as [|r rs IH]; intros Hdis s Hn; [done|].
  assert (Hrs : forall r', r' ∈ rs -> remote_get_name r' = n ->
                           get_disabled r' = true)
    by (intros r' Hr'; apply Hdis; by apply list_elem_of_further).
  cbn [add_installation_loop]. unfold bind.
  destruct (get_disabled r) eqn:Hr; simpl; [by apply IH|].
  assert (Hne : n <> remote_get_name r).
  { intros ->. rewrite (Hdis r) in Hr; [done | apply list_elem_of_here | done]. }
  assert (Hn1 : dict_mem n (remotes (snd (add_remote r inst s))) = false).
  { apply dict_mem_false. apply dict_mem_false in Hn.
    destruct (add_remote_index r inst s) as [->|[l ->]]; [done|].
    by rewrite dict_get_snoc_ne. }
  destruct (add_remote r inst s) as [[[]|e] s1]; simpl in *; [|done].
  by apply IH.
Qed.

(** X10. [add_installation] passes over disabled repositories: it does
    what it would do for the installation with the disabled repositories
    left out, and a name that only disabled repositories carry is not in
    the index afterwards unless it was there before. *)
Theorem add_installation_skips_disabled (inst : Installation) (s : State) :
  add_installation inst s
  = add_installation
      {| list_remotes := List.filter enabled (list_remotes inst);
         installed_app_refs := installed_app_refs inst |} s /\
  (forall n,
     dict_mem n (remotes s) = false ->
     (forall r, r ∈ list_remotes inst -> remote_get_name r = n ->
                get_disabled r = true) ->
     dict_mem n (remotes (snd (add_installation inst s))) = false).
Proof.
  split.
  - unfold add_installation. simpl.
    rewrite (add_installation_loop_refs
               (List.filter enabled (list_remotes inst)) inst
               {| list_remotes := List.filter enabled (list_remotes inst);
                  installed_app_refs := installed_app_refs inst |} eq_refl).
    by rewrite add_installation_loop_enabled.
  - intros n Hn Hdis. by apply add_installation_loop_absent.
Qed.

Lemma add_installation_skips_disabled_witness :
  dict_mem "flathub-beta" (remotes init) = false /\
  dict_mem "flathub-beta"
    (remotes (snd (add_installation MoreFixtures.system_disabled init)))
  = false /\
  dict_keys (remotes (snd (add_installation MoreFixtures.system_disabled init)))
  = ["fedora"; "flathub"].
Proof.
  destruct (add_installation_skips_disabled MoreFixtures.system_disabled init)
    as [_ Habsent].
  split; [reflexivity | split; [| by vm_compute]].
  apply Habsent; [reflexivity|]. intros r Hr Hname.
  repeat (apply elem_of_cons in Hr as [->|Hr]; [by (discriminate || reflexivity)|]).
  by apply elem_of_nil in Hr.
Defined.

Lemma add_remote_loadable (r : Remote) (inst : Installation) (s : State) :
  loadable r ->
  fst (add_remote r inst s) = Ok tt /\
  dict_mem (remote_get_name r) (remotes (snd (add_remote r inst s))) = true.
Proof.
  unfold loadable. intros Hload.
  destruct (dict_mem (remote_get_name r) (remotes s)) eqn:Hmem.
  - by rewrite (add_remote_known r inst s Hmem).
  - pose proof Hmem as Hnone. apply dict_mem_false in Hnone.
    destruct (appstream_xml_gz r) as [| |cs] eqn:Hfile; [|done|].
    + rewrite (add_remote_missing r inst s Hfile Hmem). simpl.
      split; [done|]. apply dict_mem_true.
      by rewrite dict_get_snoc_eq.
    + destruct (add_remote_readable r cs inst s Hfile Hload Hmem)
        as (new & -> & _). simpl.
      split; [done|]. apply dict_mem_true.
      by rewrite dict_get_snoc_eq.
Qed.

Lemma dict_mem_prefix {V} (k : string) (d d' : list (string * V)) :
  d `prefix_of` d' -> dict_mem k d = true -> dict_mem k d' = true.
Proof.
  intros [t ->] Hk. apply dict_mem_true in Hk as [v Hv].
  apply dict_mem_true. exists v. by apply dict_get_app_Some.
Qed.

Lemma add_installation_loop_loadable (rs : list Remote) (inst : Installation) :
  Forall (fun r => get_disabled r = false -> loadable r) rs ->
  forall s,
  fst (add_installation_loop rs inst s) = Ok tt /\
  (forall r, r ∈ rs -> get_disabled r = false ->
             dict_mem (remote_get_name r)
               (remotes (snd (add_installation_loop rs inst s))) = true).
Proof.
  induction 1 as [|r rs Hr _ IH]; intros s.
  - split; [done|]. intros r Hin. by apply elem_of_nil in Hin.
  - cbn [add_installation_loop]. unfold bind.
    destruct (get_disabled r) eqn:Hdis; simpl.
    + destruct (IH s) as [Hok Hkeys]. split; [done|].
      intros r' Hin Hen. apply elem_of_cons in Hin as [->|Hin];
        [congruence | by apply Hkeys].
    + destruct (add_remote_loadable r inst s (Hr eq_refl)) as [Hok Hmem].
      destruct (add_remote r inst s) as [[[]|e] s1]; simpl in *; [|done].
      destruct (IH s1) as [Hok' Hkeys]. split; [done|].
      intros r' Hin Hen. apply elem_of_cons in Hin as [->|Hin];
        [|by apply Hkeys].
      eapply dict_mem_prefix; [apply remotes_prefix_loop | done].
Qed.

(** X11. When every enabled repository of an installation has a missing
    catalogue file or a catalogue in which each desktop application has a
    flatpak bundle, [add_installation] returns normally and the name of
    every enabled repository is a key of the index afterwards. *)
Theorem add_installation_loadable (inst : Installation) (s : State) :
  Forall (fun r => get_disabled r = false -> loadable r) (list_remotes inst) ->
  fst (add_installation inst s) = Ok tt /\
  (forall r, r ∈ list_remotes inst -> get_disabled r = false ->
             dict_mem (remote_get_name r)
               (remotes (snd (add_installation inst s))) = true).
Proof. intros Hall. by apply add_installation_loop_loadable. Qed.

Lemma add_installation_loadable_witness :
  fst (add_installation Fixtures.system init) = Ok tt /\
  dict_mem "flathub-beta"
    (remotes (snd (add_installation Fixtures.system init))) = true.
Proof.
  assert (Hwf : forall c, c ∈ [Fixtures.lutris; Fixtures.firefox;
                               Fixtures.platform; Fixtures.chess] ->
                          well_formed_component c).
  { intros c Hc Hkind.
    repeat (apply elem_of_cons in Hc as [->|Hc]; [by (discriminate || eexists)|]).
    by apply elem_of_nil in Hc. }
  assert (Hall : Forall (fun r => get_disabled r = false -> loadable r)
                   (list_remotes Fixtures.system)).
  { apply Forall_cons. split; [intros _; exact I|].
    apply Forall_cons. split; [intros _; apply Forall_forall, Hwf|].
    apply Forall_cons. split; [|constructor].
    intros _. apply Forall_cons. split; [|constructor].
    apply Hwf, list_elem_of_here. }
  destruct (add_installation_loadable Fixtures.system init Hall)
    as [Hok Hkeys].
  split; [exact Hok|].
  apply (Hkeys Fixtures.beta); [|reflexivity].
  do 2 apply list_elem_of_further. apply list_elem_of_here.
Defined.

Lemma add_remote_installed (r : Remote) (inst : Installation) (s : State) :
  installed (snd (add_remote r inst s))
  = installed s ++ installed_app_refs inst.
Proof.
  destruct (dict_mem (remote_get_name r) (remotes s)) eqn:Hmem.
  - by rewrite (add_remote_known r inst s Hmem).
  - by destruct (add_remote_new_spec r inst s Hmem) as (new & -> & _).
Qed.

(** X12. [self.installed] is extended once for every enabled repository:
    after a call of [add_installation] that returns, the installed list is
    the old list followed by one copy of the installation's installed
    application refs for each enabled repository, duplicates included. *)
Theorem add_installation_installed (inst : Installation) (s : State) :
  fst (add_installation inst s) = Ok tt ->
  installed (snd (add_installation inst s))
  = installed s
    ++ concat (map (fun _ => installed_app_refs inst)
                   (List.filter enabled (list_remotes inst))).
Proof.
  unfold add_installation. generalize (list_remotes inst) as rs.
  intros rs. revert s. induction rs as [|r rs IH]; intros s Hok.
  - simpl. by rewrite app_nil_r.
  - cbn [add_installation_loop List.filter] in *. unfold enabled at 1.
    unfold bind in *. destruct (get_disabled r); simpl in *.
    + by apply IH.
    + pose proof (add_remote_installed r inst s) as Hinst.
      destruct (add_remote r inst s) as [[[]|e] s1]; simpl in *; [|done].
      rewrite (IH s1 Hok), Hinst. by rewrite <- app_assoc.
Qed.

Lemma add_installation_installed_witness :
  fst (add_installation MoreFixtures.system_disabled init) = Ok tt /\
  installed (snd (add_installation MoreFixtures.system_disabled init))
  = ["app/org.mozilla.firefox/x86_64/stable";
     "app/org.mozilla.firefox/x86_64/stable"].
Proof.
  split; [by vm_compute|].
  exact (add_installation_installed MoreFixtures.system_disabled init eq_refl).
Defined.

(** ** The loader on single components *)

Lemma load_component_raises (r : Remote) (c : Component) (acc : list addr)
    (s : State) (e : PyError) :
  fst (load_component r c acc s) = Raise e -> e = AttributeError.
Proof.
  unfold load_component, AppStreamPackage_init.
  destruct (kind_is_desktop_app (get_kind c)); [|done].
  destruct (get_bundle c) as [b|] eqn:Hb; [|by intros [= <-]].
  munfold. simpl. by destruct (Str.str_in _ _).
Qed.

Lemma load_component_malformed (r : Remote) (c : Component)
    (acc : list addr) (s : State) :
  malformed_component c ->
  load_component r c acc s = (Raise AttributeError, s).
Proof. intros [Hkind Hb]. unfold load_component. by rewrite Hkind, Hb. Qed.

Lemma load_components_malformed (r : Remote) (cs : list Component) :
  Exists malformed_component cs ->
  forall acc s, fst (load_components r cs acc s) = Raise AttributeError.
Proof.
  induction 1 as [c cs Hc|c cs _ IH]; intros acc s; cbn [load_components].
  - by rewrite (bind_Raise _ _ _ _ _ (load_component_malformed r c acc s Hc)).
  - destruct (load_component r c acc s) as [[l|e] s1] eqn:E.
    + rewrite (bind_Ok _ _ _ _ _ E). apply IH.
    + rewrite (bind_Raise _ _ _ _ _ E). simpl. f_equal.
      apply (load_component_raises r c acc s). by rewrite E.
Qed.

(** X13. A catalogue with a desktop application that has no flatpak bundle
    cannot be loaded: [_load_appstream_metadata] raises [AttributeError]
    whatever the other components are, and [add_remote] for a repository
    that is not in the index yet raises it too and adds no entry. *)
Theorem load_malformed_component (r : Remote) (cs : list Component)
    (inst : Installation) (s : State) :
  appstream_xml_gz r = Catalog cs ->
  Exists malformed_component cs ->
  fst (_load_appstream_metadata r s) = Raise AttributeError /\
  (dict_mem (remote_get_name r) (remotes s) = false ->
   fst (add_remote r inst s) = Raise AttributeError /\
   remotes (snd (add_remote r inst s)) = remotes s).
Proof.
  intros Hfile Hbad. split.
  - rewrite (load_appstream_metadata_catalog r cs s Hfile).
    by apply load_components_malformed.
  - intros Hmem. rewrite (add_remote_new r inst s Hmem).
    destruct (load_appstream_metadata_spec r (extended inst s))
      as (new & HR & _).
    pose proof (load_components_malformed r cs Hbad [] (extended inst s))
      as Hraise.
    rewrite <- (load_appstream_metadata_catalog r cs _ Hfile) in Hraise.
    destruct (_load_appstream_metadata r (extended inst s)) as [[l|e] s1];
      simpl in *; [done|]. injection Hraise as ->. by split.
Qed.

Lemma load_malformed_component_witness :
  fst (_load_appstream_metadata MoreFixtures.nightly init)
  = Raise AttributeError /\
  fst (add_remote MoreFixtures.nightly Fixtures.system init)
  = Raise AttributeError /\
  remotes (snd (add_remote MoreFixtures.nightly Fixtures.system init)) = [].
Proof.
  assert (Hbad : Exists malformed_component
                   [Fixtures.chess; MoreFixtures.unbundled; Fixtures.lutris])
    by (apply Exists_cons_tl, Exists_cons_hd; by split).
  destruct (load_malformed_component MoreFixtures.nightly _ Fixtures.system
              init eq_refl Hbad) as [Hload Hadd].
  destruct (Hadd eq_refl) as [Hraise Hidx].
  split; [exact Hload | split; [exact Hraise | exact Hidx]].
Defined.

Lemma load_component_init (r : Remote) (c : Component) (acc : list addr)
    (s : State) (a : addr) (p : AppStreamPackage) :
  heap (snd (load_component r c acc s)) !! a = Some p ->
  length (heap s) <= a ->
  AppStreamPackage_init (component p) r = Ok p.
Proof.
  unfold load_component.
  assert (Hold : heap s !! a = Some p -> length (heap s) <= a ->
                 AppStreamPackage_init (component p) r = Ok p).
  { intros Hp Hle. apply lookup_lt_Some in Hp. lia. }
  destruct (kind_is_desktop_app (get_kind c)); [|done].
  destruct (get_bundle c) as [b|] eqn:Hb; [|done].
  munfold. simpl. destruct (Str.str_in _ _); simpl; [done|].
  unfold AppStreamPackage_init at 1. rewrite Hb. simpl.
  intros Hp Hle. apply lookup_lt_Some in Hp as Hlt.
  rewrite length_app in Hlt. simpl in Hlt.
  assert (a = length (heap s)) as -> by lia.
  rewrite list_lookup_middle in Hp by done. injection Hp as <-.
  unfold AppStreamPackage_init. simpl. by rewrite Hb.
Qed.

Lemma load_components_init (r : Remote) (cs : list Component) :
  forall (acc : list addr) (s : State) (a : addr) (p : AppStreamPackage),
  heap (snd (load_components r cs acc s)) !! a = Some p ->
  length (heap s) <= a ->
  AppStreamPackage_init (component p) r = Ok p.
Proof.
  induction cs as [|c cs IH]; intros acc s a p Hp Hle.
  - simpl in Hp. apply lookup_lt_Some in Hp. lia.
  - cbn [load_components] in Hp.
    destruct (load_component_spec r c acc s) as (new1 & Hl1 & _).
    pose proof (load_component_init r c acc s a p) as Hstep.
    destruct (load_component r c acc s) as [[l1|e] s1] eqn:E; simpl in *.
    + rewrite (bind_Ok _ _ _ _ _ E) in Hp.
      destruct (decide (a < length (heap s1))) as [Hlt|Hge].
      * destruct (load_components_spec r cs l1 s1) as (new2 & Hl2 & _).
        rewrite (loads_heap _ _ _ _ Hl2), lookup_app_l in Hp by done.
        by apply Hstep.
      * apply (IH l1 s1 a p Hp). lia.
    + rewrite (bind_Raise _ _ _ _ _ E) in Hp. by apply Hstep.
Qed.

(** X14. Loading a catalogue in which every desktop application has a
    flatpak bundle creates one record for each desktop application whose
    bundle is not installed, in catalogue order, at the next free
    addresses; each record is the object [AppStreamPackage.__init__]
    builds from its component and the repository, so it starts with the
    match NONE.  Components of other kinds are passed over. *)
Theorem load_builds_records (r : Remote) (cs : list Component) (s : State) :
  appstream_xml_gz r = Catalog cs ->
  Forall well_formed_component cs ->
  exists new,
    _load_appstream_metadata r s
    = (Ok (seq (length (heap s)) (length new)), allocated new s) /\
    Forall2 (fun c p => AppStreamPackage_init c r = Ok p /\ pkg_match p = NONE)
            (List.filter (eligible (installed s)) cs) new.
Proof.
  intros Hfile Hwf.
  destruct (load_appstream_metadata_readable r cs s Hfile Hwf)
    as (new & Hrun & Hmap & Hfresh).
  exists new. split; [done|]. rewrite <- Hmap.
  assert (Hinit : Forall (fun p => AppStreamPackage_init (component p) r = Ok p)
                    new).
  { apply Forall_forall. intros p Hp.
    apply list_elem_of_lookup_1 in Hp as [i Hi].
    apply (load_components_init r cs [] s (length (heap s) + i) p); [|lia].
    rewrite <- (load_appstream_metadata_catalog r cs s Hfile), Hrun. simpl.
    rewrite lookup_app_r by lia.
    by replace (length (heap s) + i - length (heap s)) with i by lia. }
  clear Hrun Hmap. induction new as [|p new IH]; [constructor|].
  apply Forall_cons in Hinit as [Hp Hinit].
  apply Forall_cons in Hfresh as [(_ & _ & Hm) Hfresh].
  constructor; [done | by apply IH].
Qed.

Lemma load_builds_records_witness :
  exists new,
    _load_appstream_metadata Fixtures.flathub
      (extended Fixtures.system init)
    = (Ok [0; 1], allocated new (extended Fixtures.system init)) /\
    new = [Fixtures.package Fixtures.lutris Fixtures.flathub;
           Fixtures.package Fixtures.chess Fixtures.flathub].
Proof.
  assert (Hwf : Forall well_formed_component
                  [Fixtures.lutris; Fixtures.firefox; Fixtures.platform;
                   Fixtures.chess]).
  { repeat (apply Forall_cons; split; [intros Hk; by (discriminate || eexists)|]).
    constructor. }
  destruct (load_builds_records Fixtures.flathub _
              (extended Fixtures.system init) eq_refl Hwf)
    as (new & Hrun & Hall).
  exists new. simpl in Hall.
  inversion Hall as [|c1 p1 cs1 ps1 [H1 _] Hall1]; subst.
  inversion Hall1 as [|c2 p2 cs2 ps2 [H2 _] Hall2]; subst.
  inversion Hall2; subst.
  split; [exact Hrun|].
  injection H1 as <-. injection H2 as <-. reflexivity.
Defined.

(** ** Fields resolved at construction *)

Lemma find_first {A} (f : A -> bool) (pre post : list A) (x : A) :
  Forall (fun y => f y = false) pre -> f x = true ->
  find f (pre ++ x :: post) = Some x.
Proof.
  intros Hpre Hx. induction Hpre as [|y pre Hy _ IH]; simpl.
  - by rewrite Hx.
  - by rewrite Hy.
Qed.

Lemma find_none {A} (f : A -> bool) (l : list A) :
  Forall (fun y => f y = false) l -> find f l = None.
Proof. induction 1 as [|y l Hy _ IH]; simpl; [done | by rewrite Hy]. Qed.

(** X15. The icon URL of a component is the URL of its first icon of kind
    REMOTE, in the order of the icon list, and the icon file name is the
    file name of its first icon of kind CACHED; icons of other kinds before
    it do not count, later icons of the same kind are ignored, and each
    value is the empty string when the component has no icon of that
    kind. *)
Theorem first_icon_of_kind (comp : Component) :
  (forall pre icon post,
     get_icons comp = pre ++ icon :: post ->
     Forall (fun i => icon_is ICON_REMOTE i = false) pre ->
     icon_is ICON_REMOTE icon = true ->
     _get_icon_url comp = icon_get_url icon) /\
  (Forall (fun i => icon_is ICON_REMOTE i = false) (get_icons comp) ->
   _get_icon_url comp = "") /\
  (forall pre icon post,
     get_icons comp = pre ++ icon :: post ->
     Forall (fun i => icon_is ICON_CACHED i = false) pre ->
     icon_is ICON_CACHED icon = true ->
     _get_icon_filename comp = icon_get_filename icon) /\
  (Forall (fun i => icon_is ICON_CACHED i = false) (get_icons comp) ->
   _get_icon_filename comp = "").
Proof.
  unfold _get_icon_url, _get_icon_filename. repeat split.
  - intros pre icon post -> Hpre Hicon.
    pose proof (find_first (icon_is ICON_REMOTE) pre post icon Hpre Hicon) as Hf.
    unfold icon_is in Hf. by rewrite Hf.
  - intros Hnone.
    pose proof (find_none (icon_is ICON_REMOTE) _ Hnone) as Hf.
    unfold icon_is in Hf. by rewrite Hf.
  - intros pre icon post -> Hpre Hicon.
    pose proof (find_first (icon_is ICON_CACHED) pre post icon Hpre Hicon) as Hf.
    unfold icon_is in Hf. by rewrite Hf.
  - intros Hnone.
    pose proof (find_none (icon_is ICON_CACHED) _ Hnone) as Hf.
    unfold icon_is in Hf. by rewrite Hf.
Qed.

Lemma first_icon_of_kind_witness :
  _get_icon_url MoreFixtures.unbundled = "https://example.org/a.png" /\
  _get_icon_filename MoreFixtures.unbundled = "a.png" /\
  _get_icon_url Fixtures.lutris = "".
Proof.
  destruct (first_icon_of_kind MoreFixtures.unbundled) as (Hurl & _ & Hfile & _).
  destruct (first_icon_of_kind Fixtures.lutris) as (_ & Hnone & _).
  split; [|split].
  - apply (Hurl [ {| icon_kind := ICON_STOCK; icon_get_url := "";
                     icon_get_filename := "" |} ]
             {| icon_kind := ICON_REMOTE;
                icon_get_url := "https://example.org/a.png";
                icon_get_filename := "" |} _ eq_refl);
      [by repeat constructor | reflexivity].
  - apply (Hfile [ {| icon_kind := ICON_STOCK; icon_get_url := "";
                      icon_get_filename := "" |};
                   {| icon_kind := ICON_REMOTE;
                      icon_get_url := "https://example.org/a.png";
                      icon_get_filename := "" |} ]
             {| icon_kind := ICON_CACHED; icon_get_url := "";
                icon_get_filename := "a.png" |} _ eq_refl);
      [by repeat constructor | reflexivity].
  - apply Hnone. by repeat constructor.
Defined.

(** X16. The categories of a record are the categories of its component in
    the same order and number, duplicates kept, each lower-cased: no
    category of a record has an upper-case ASCII letter, and lower-casing
    the list again changes nothing. *)
Theorem categories_lower_cased (comp : Component) :
  length (_get_categories comp) = length (get_categories comp) /\
  (forall i, _get_categories comp !! i
             = Str.lower <$> get_categories comp !! i) /\
  Forall (fun c => has_upper c = false) (_get_categories comp) /\
  map Str.lower (_get_categories comp) = _get_categories comp.
Proof.
  unfold _get_categories. split; [by rewrite length_map|]. split; [|split].
  - intros i. apply list_lookup_fmap.
  - apply Forall_forall. intros c Hc.
    apply list_elem_of_fmap in Hc as (c0 & -> & _). apply has_upper_lower.
  - rewrite map_map. apply map_ext. intros c. apply lower_lower.
Qed.

(** ** get_details and main *)

Lemma Match_name_NONE (m : Match) : Match_name m = "NONE" <-> m = NONE.
Proof. by destruct m. Qed.

Lemma search_flatpak_result_cell (s : State) (kw : string)
    (repo : option string) (res : list addr) (a : addr) :
  wf s ->
  fst (search_flatpak kw repo s) = Ok res ->
  a ∈ res ->
  exists p,
    heap s !! a = Some p /\
    search p (Str.lower kw) <> NONE /\
    heap (snd (search_flatpak kw repo s)) !! a
    = Some (set_match (search p (Str.lower kw)) p).
Proof.
  intros Hwf Hres Ha.
  rewrite (search_flatpak_result s kw repo res Hwf Hres) in Ha.
  apply elem_of_hits in Ha as [Hin Hhit].
  pose proof (scanned_live s repo Hwf) as Hlive.
  unfold live in Hlive. rewrite Forall_forall in Hlive.
  destruct (Hlive a Hin) as [p Hp]. exists p.
  apply (hit_Some _ _ a p Hp) in Hhit as Hne.
  split; [done|]. split; [done|].
  rewrite (search_flatpak_state kw repo s Hwf). simpl.
  rewrite list_lookup_imap, Hp. simpl. f_equal. unfold after_search.
  rewrite (bool_decide_eq_true_2 _ Hin).
  by rewrite (proj2 (Match_eqb_NONE _) Hne).
Qed.

(** X17. The details of a record that a public search has just returned
    name the criterion of that search: [match_type] is the name of the
    classification of the lower-cased keyword, so it is "NAME", "ID" or
    "SUMMARY" and never "NONE"; the other entries of the details are those
    the record had before the search. *)
Theorem details_of_result (s : State) (keyword : string)
    (repo : option string) (res : list addr) (a : addr) :
  reachable s ->
  fst (search_flatpak keyword repo s) = Ok res ->
  a ∈ res ->
  exists p p',
    heap s !! a = Some p /\
    heap (snd (search_flatpak keyword repo s)) !! a = Some p' /\
    Details.match_type (get_details p')
    = Match_name (search p (Str.lower keyword)) /\
    Details.match_type (get_details p') <> "NONE" /\
    get_details (set_match (pkg_match p) p') = get_details p.
Proof.
  intros Hreach Hres Ha. pose proof (reachable_wf s Hreach) as Hwf.
  destruct (search_flatpak_result_cell s keyword repo res a Hwf Hres Ha)
    as (p & Hp & Hne & Hp').
  exists p, (set_match (search p (Str.lower keyword)) p).
  split; [done|]. split; [done|]. split; [done|]. split.
  - simpl. by rewrite Match_name_NONE.
  - by rewrite set_match_set_match, set_match_id.
Qed.

Lemma details_of_result_witness :
  reachable Fixtures.session /\
  fst (search_flatpak "NET." None Fixtures.session) = Ok [0; 2] /\
  Details.match_type
    <$> (get_details
           <$> heap (snd (search_flatpak "NET." None Fixtures.session)) !! 2)
  = Some "ID".
Proof.
  assert (Hin : 2 ∈ [0; 2]) by (apply list_elem_of_further, list_elem_of_here).
  destruct (details_of_result Fixtures.session "NET." None [0; 2] 2
              reachable_session eq_refl Hin)
    as (p & p' & Hp & Hp' & Hmt & _).
  split; [exact reachable_session | split; [by vm_compute|]].
  rewrite Hp'. change (Some (Details.match_type (get_details p')) = Some "ID").
  rewrite Hmt. injection Hp as <-. reflexivity.
Defined.

Lemma short_key (key : string) :
  py_len key < 3 ->
  String.eqb key "" || (py_len key <? 3)%nat = true.
Proof. intros H. apply Nat.ltb_lt in H. rewrite H. apply orb_true_r. Qed.

Lemma long_key (key : string) :
  3 <= py_len key ->
  String.eqb key "" || (py_len key <? 3)%nat = false.
Proof.
  intros H. destruct key as [|c key]; [simpl in H; lia|].
  simpl String.eqb. apply Nat.ltb_ge. done.
Qed.

(** X18. For an application id of one or two characters, counted as
    [len] counts them, [main] prints nothing and never searches: it first
    loads the whole installation and then, when the load has returned,
    raises [NameError] for the name [self]; it does not return normally. *)
Theorem main_short_id (app_id repo_filter : option string)
    (system : Installation) :
  truthy app_id = true ->
  py_len (default "" app_id) < 3 ->
  stdout (main app_id repo_filter system) = [] /\
  debug_key (main app_id repo_filter system) = None /\
  outcome (main app_id repo_filter system) <> Returned /\
  final (main app_id repo_filter system) = snd (add_installation system init) /\
  (fst (add_installation system init) = Ok tt ->
   outcome (main app_id repo_filter system) = NameError "self").
Proof.
  intros Hid Hlen. unfold main. rewrite Hid. simpl negb. cbv iota.
  destruct (add_installation system init) as [[[]|e] s]; simpl fst; simpl snd.
  - rewrite (short_key _ Hlen). by repeat split.
  - by repeat split.
Qed.

Lemma main_short_id_witness :
  outcome (main (Some "vi") None Fixtures.system) = NameError "self" /\
  stdout (main (Some "vi") None Fixtures.system) = [] /\
  dict_keys (remotes (final (main (Some "vi") None Fixtures.system)))
  = ["fedora"; "flathub"; "flathub-beta"] /\
  String.length MoreFixtures.two_characters = 6 /\
  py_len MoreFixtures.two_characters = 2 /\
  outcome (main (Some MoreFixtures.two_characters) None Fixtures.system)
  = NameError "self".
Proof.
  assert (Hlen : py_len (default "" (Some "vi")) < 3) by (simpl; lia).
  assert (Hlen2 : py_len (default "" (Some MoreFixtures.two_characters)) < 3)
    by (simpl; lia).
  destruct (main_short_id (Some "vi") None Fixtures.system eq_refl Hlen)
    as (Hout & _ & _ & Hfinal & Hname).
  destruct (main_short_id (Some MoreFixtures.two_characters) None
              Fixtures.system eq_refl Hlen2) as (_ & _ & _ & _ & Hname2).
  split; [apply Hname; by vm_compute | split; [exact Hout|]].
  split; [rewrite Hfinal; by vm_compute|].
  split; [reflexivity | split; [reflexivity|]].
  apply Hname2. by vm_compute.
Defined.

Lemma print_package_length (d : Details.t) : length (print_package d) = 18.
Proof. done. Qed.

Lemma print_package_match_type (d : Details.t) (v : PyValue) :
  print_field "Match Type: " v ∈ print_package d ->
  v = VStr (Details.match_type d).
Proof.
  unfold print_package. intros Hin.
  repeat (apply elem_of_cons in Hin as [Heq|Hin];
          [by (discriminate Heq || injection Heq as ->)|]).
  by apply elem_of_nil in Hin.
Qed.

Lemma print_results_spec (s : State) (res : list addr) :
  Forall (fun a => exists p, heap s !! a = Some p /\ pkg_match p <> NONE) res ->
  length (print_results s res) = 18 * length res /\
  (forall v, print_field "Match Type: " v ∈ print_results s res ->
             v = VStr "NAME" \/ v = VStr "ID" \/ v = VStr "SUMMARY").
Proof.
  unfold print_results.
  induction 1 as [|a res (p & Hp & Hm) _ [IHlen IHmt]]; simpl.
  - split; [done|]. intros v Hv. by apply elem_of_nil in Hv.
  - rewrite Hp. split.
    + rewrite length_app, print_package_length, IHlen. lia.
    + intros v Hv. apply elem_of_app in Hv as [Hv|Hv]; [|by apply IHmt].
      apply print_package_match_type in Hv as ->. simpl.
      destruct (pkg_match p); tauto.
Qed.

(** X19. When [main] returns for an application id of three or more
    characters, it has printed eighteen lines for each record the search
    returned, in the order of the search results, and every "Match Type"
    line names NAME, ID or SUMMARY, never NONE.  The search is the public
    search on the loaded installation, scoped by [--repo] when that option
    is a non-empty string. *)
Theorem main_prints_results (app_id repo_filter : option string)
    (system : Installation) :
  truthy app_id = true ->
  3 <= String.length (default "" app_id) ->
  outcome (main app_id repo_filter system) = Returned ->
  let s0 := snd (add_installation system init) in
  let scope := if truthy repo_filter then repo_filter else None in
  exists res,
    fst (search_flatpak (default "" app_id) scope s0) = Ok res /\
    final (main app_id repo_filter system)
    = snd (search_flatpak (default "" app_id) scope s0) /\
    stdout (main app_id repo_filter system)
    = print_results (final (main app_id repo_filter system)) res /\
    length (stdout (main app_id repo_filter system)) = 18 * length res /\
    (forall v,
       print_field "Match Type: " v ∈ stdout (main app_id repo_filter system) ->
       v = VStr "NAME" \/ v = VStr "ID" \/ v = VStr "SUMMARY").
Proof.
  intros Hid Hlen Hret s0 scope.
  assert (Hwf : wf s0)
    by apply (reachable_wf _ (reachable_call (call_add_installation system)
                                init reachable_init)).
  subst s0. revert Hret. unfold main. rewrite Hid. simpl negb. cbv iota.
  destruct (add_installation system init) as [[[]|e] s0]; [|done].
  destruct (String.eqb (default "" app_id) ""
            || (py_len (default "" app_id) <? 3)%nat); [done|].
  simpl snd in *.
  assert (Hscope : (if truthy repo_filter
                    then search_flatpak (default "" app_id) repo_filter s0
                    else search_flatpak (default "" app_id) None s0)
                   = search_flatpak (default "" app_id) scope s0)
    by (subst scope; by destruct (truthy repo_filter)).
  rewrite Hscope.
  destruct (search_flatpak (default "" app_id) scope s0) as [[res|e] s'] eqn:E;
    [|done].
  intros _. exists res. simpl. split; [done|]. split; [done|]. split; [done|].
  apply print_results_spec. apply Forall_forall. intros a Ha.
  destruct (search_flatpak_result_cell s0 (default "" app_id) scope res a Hwf)
    as (p & _ & Hne & Hcell); [by rewrite E | done |].
  rewrite E in Hcell. simpl in Hcell. by eexists.
Qed.

Lemma main_prints_results_witness :
  outcome (main (Some "Lutris") None Fixtures.system) = Returned /\
  length (stdout (main (Some "Lutris") None Fixtures.system)) = 36.
Proof.
  assert (Hret : outcome (main (Some "Lutris") None Fixtures.system) = Returned)
    by (by vm_compute).
  assert (Hlen : 3 <= String.length (default "" (Some "Lutris")))
    by (simpl; lia).
  destruct (main_prints_results (Some "Lutris") None Fixtures.system
              eq_refl Hlen Hret) as (res & Hres & _ & _ & Hout & _).
  split; [exact Hret|]. rewrite Hout.
  assert (res = [0; 2]) as -> by (vm_compute in Hres; by injection Hres as <-).
  reflexivity.
Defined.

(** X20. [main] does not catch the lookup error of the search: with an
    application id of three or more characters, counted as [len] counts
    them, and a non-empty [--repo] name that is not in the index after the
    installation has been loaded, the program ends with [KeyError] for that
    name and prints nothing. *)
Theorem main_unknown_repo (app_id : option string) (n : string)
    (system : Installation) :
  truthy app_id = true ->
  3 <= py_len (default "" app_id) ->
  n <> "" ->
  fst (add_installation system init) = Ok tt ->
  dict_mem n (remotes (snd (add_installation system init))) = false ->
  outcome (main app_id (Some n) system) = Uncaught (KeyError n) /\
  stdout (main app_id (Some n) system) = [] /\
  final (main app_id (Some n) system) = snd (add_installation system init).
Proof.
  intros Hid Hlen Hn Hok Hmem. apply truthy_Some in Hn.
  apply dict_mem_false in Hmem. unfold main.
  rewrite Hid. simpl negb. cbv iota.
  destruct (add_installation system init) as [[[]|e] s0]; [|done].
  rewrite (long_key _ Hlen), Hn. simpl snd in *.
  rewrite (search_flatpak_scoped _ (Some n) s0 Hn). simpl default.
  by rewrite (search_flatpak_repo_unknown _ n s0 Hmem).
Qed.

Lemma main_unknown_repo_witness :
  outcome (main (Some "lutris") (Some "elementary") Fixtures.system)
  = Uncaught (KeyError "elementary") /\
  stdout (main (Some "lutris") (Some "elementary") Fixtures.system) = [].
Proof.
  assert (Hlen : 3 <= py_len (default "" (Some "lutris")))
    by (simpl; lia).
  assert (Hok : fst (add_installation Fixtures.system init) = Ok tt)
    by (by vm_compute).
  assert (Hmem : dict_mem "elementary"
                   (remotes (snd (add_installation Fixtures.system init)))
                 = false) by (by vm_compute).
  destruct (main_unknown_repo (Some "lutris") "elementary" Fixtures.system
              eq_refl Hlen ltac:(discriminate) Hok Hmem) as (Hout & Hstd & _).
  split; [exact Hout | exact Hstd].
Defined.

(** ** Log records and insertion order *)

(** X21. A public search that returns has called [logger.debug] once for
    each record it returns, in the order of the returned list, each time
    with the record and the classification it stored in [match]. *)
Theorem search_flatpak_log (s : State) (keyword : string)
    (repo : option string) (res : list addr) :
  reachable s ->
  fst (search_flatpak keyword repo s) = Ok res ->
  log (snd (search_flatpak keyword repo s))
  = log s ++ map (fun a => debug_found a (found_at (heap s)
                                            (Str.lower keyword) a)) res /\
  Forall (fun a =>
            pkg_match <$> heap (snd (search_flatpak keyword repo s)) !! a
            = Some (found_at (heap s) (Str.lower keyword) a)) res.
Proof.
  intros Hreach Hres. pose proof (reachable_wf s Hreach) as Hwf. split.
  - rewrite (search_flatpak_state keyword repo s Hwf). simpl.
    by rewrite <- (search_flatpak_result s keyword repo res Hwf Hres).
  - apply Forall_forall. intros a Ha.
    destruct (search_flatpak_result_cell s keyword repo res a Hwf Hres Ha)
      as (p & Hp & _ & ->).
    unfold found_at. by rewrite Hp.
Qed.

Lemma search_flatpak_log_witness :
  reachable Fixtures.session /\
  log (snd (search_flatpak "Chess" None Fixtures.session))
  = log Fixtures.session ++ [debug_found 1 NAME].
Proof.
  destruct (search_flatpak_log Fixtures.session "Chess" None [1]
              reachable_session eq_refl) as [Hlog _].
  split; [exact reachable_session | exact Hlog].
Defined.

Lemma add_remote_loadable_new (r : Remote) (inst : Installation) (s : State) :
  loadable r ->
  dict_mem (remote_get_name r) (remotes s) = false ->
  fst (add_remote r inst s) = Ok tt /\
  dict_keys (remotes (snd (add_remote r inst s)))
  = dict_keys (remotes s) ++ [remote_get_name r].
Proof.
  unfold loadable, dict_keys. intros Hload Hmem.
  destruct (appstream_xml_gz r) as [| |cs] eqn:Hfile; [|done|].
  - rewrite (add_remote_missing r inst s Hfile Hmem). simpl.
    by rewrite map_app.
  - destruct (add_remote_readable r cs inst s Hfile Hload Hmem)
      as (new & -> & _). simpl. by rewrite map_app.
Qed.

Lemma add_installation_loop_keys (rs : list Remote) (inst : Installation) :
  Forall (fun r => get_disabled r = false -> loadable r) rs ->
  forall s,
  NoDup (dict_keys (remotes s)
         ++ map remote_get_name (List.filter enabled rs)) ->
  fst (add_installation_loop rs inst s) = Ok tt /\
  dict_keys (remotes (snd (add_installation_loop rs inst s)))
  = dict_keys (remotes s) ++ map remote_get_name (List.filter enabled rs).
Proof.
  induction 1 as [|r rs Hr _ IH]; intros s Hnd.
  - simpl. by rewrite app_nil_r.
  - assert (Hf : List.filter enabled (r :: rs)
                 = if negb (get_disabled r) then r :: List.filter enabled rs
                   else List.filter enabled rs) by reflexivity.
    rewrite Hf in Hnd |- *. clear Hf.
    cbn [add_installation_loop]. unfold bind.
    destruct (get_disabled r) eqn:Hdis; simpl in *; [by apply IH|].
    assert (Hmem : dict_mem (remote_get_name r) (remotes s) = false).
    { apply dict_mem_false, dict_get_None. apply NoDup_app in Hnd as (_ & Hd & _).
      intros Hin. apply (Hd _ Hin). apply list_elem_of_here. }
    destruct (add_remote_loadable_new r inst s (Hr eq_refl) Hmem)
      as [Hok Hkeys].
    destruct (add_remote r inst s) as [[[]|e] s1]; simpl in *; [|done].
    destruct (IH s1) as [Hok' Hkeys'].
    + rewrite Hkeys, <- app_assoc. done.
    + split; [done|]. rewrite Hkeys', Hkeys, <- app_assoc. done.
Qed.

(** X22. Repositories enter the index in the order of the installation's
    list: when the enabled repositories can all be loaded and their names
    are distinct and new to the index, [add_installation] returns normally
    and the keys of the index are the old keys followed by the names of the
    enabled repositories in list order. *)
Theorem add_installation_insertion_order (inst : Installation) (s : State) :
  Forall (fun r => get_disabled r = false -> loadable r) (list_remotes inst) ->
  NoDup (dict_keys (remotes s)
         ++ map remote_get_name (List.filter enabled (list_remotes inst))) ->
  fst (add_installation inst s) = Ok tt /\
  dict_keys (remotes (snd (add_installation inst s)))
  = dict_keys (remotes s)
    ++ map remote_get_name (List.filter enabled (list_remotes inst)).
Proof. intros Hall Hnd. by apply add_installation_loop_keys. Qed.

Lemma add_installation_insertion_order_witness :
  Forall (fun r => get_disabled r = false -> loadable r)
         (list_remotes Fixtures.system) /\
  NoDup (dict_keys (remotes init)
         ++ map remote_get_name
              (List.filter enabled (list_remotes Fixtures.system))) /\
  fst (add_installation Fixtures.system init) = Ok tt /\
  dict_keys (remotes (snd (add_installation Fixtures.system init)))
  = ["fedora"; "flathub"; "flathub-beta"].
Proof.
  assert (Hwf : forall c, c ∈ [Fixtures.lutris; Fixtures.firefox;
                               Fixtures.platform; Fixtures.chess] ->
                          well_formed_component c).
  { intros c Hc Hkind.
    repeat (apply elem_of_cons in Hc as [->|Hc]; [by (discriminate || eexists)|]).
    by apply elem_of_nil in Hc. }
  assert (Hall : Forall (fun r => get_disabled r = false -> loadable r)
                   (list_remotes Fixtures.system)).
  { apply Forall_cons. split; [intros _; exact I|].
    apply Forall_cons. split; [intros _; apply Forall_forall, Hwf|].
    apply Forall_cons. split; [|constructor].
    intros _. apply Forall_cons. split; [|constructor].
    apply Hwf, list_elem_of_here. }
  assert (Hnd : NoDup (dict_keys (remotes init)
                       ++ map remote_get_name
                            (List.filter enabled (list_remotes Fixtures.system)))).
  { change (NoDup ["fedora"; "flathub"; "flathub-beta"]).
    apply NoDup_cons. split.
    - intros Hin. repeat (apply elem_of_cons in Hin as [Heq|Hin];
                          [discriminate Heq|]).
      by apply elem_of_nil in Hin.
    - apply NoDup_cons. split; [|apply NoDup_singleton].
      intros Hin. apply list_elem_of_singleton in Hin. discriminate Hin. }
  split; [exact Hall | split; [exact Hnd |]].
  exact (add_installation_insertion_order Fixtures.system init Hall Hnd).
Defined.
